(** * pymongo/pool.py: the connection pool

    A shallow embedding of [pymongo.pool] (classes [PoolOptions],
    [SocketInfo] and [Pool]) and the properties of the pool's CMAP state
    machine established over it.

    Conventions of the embedding.
    - Python integers are [Z].  Readings of [time.monotonic()] and the
      durations compared with them are [Z] milliseconds: the pool only
      subtracts two readings and compares the difference.
    - [float('inf')] and [None] used as "no bound" are [None : option Z].
    - Everything the pool does to the outside world (events handed to the
      listeners, calls on the raw socket, notifications of the two
      condition variables) is recorded, in program order, in a list of
      [Effect]s returned next to the new state.
    - What the outside world answers ([os.getpid()], the clock, whether a
      condition wait was signalled, the dialer, the handshake, the
      authenticator) is read from an [Env] record passed to every step.
    - A method that gives up the lock (condition waits, dialing) is cut at
      those points into atomic steps over a program counter; line numbers
      in comments refer to src/pymongo/pool.py.
    - Exceptions are the ones the collaborators raise, told apart by
      class as the [except] clauses and [isinstance] tests of the module
      tell them apart; [KeyboardInterrupt] stands for every BaseException
      that is no [Exception].  An exception landing between two bytecodes
      of the pool's own code is outside the model.
    - A connection is a value: the pool's deque and a caller never hold the
      same connection at the same time, so no store of objects is kept. *)

From Stdlib Require Import ZArith List Bool Lia String Ascii.
Import ListNotations.
Open Scope Z_scope.

Set Implicit Arguments.

(** ** Values shared by the classes *)

Definition Time := Z.

(** A MongoCredential; [all_credentials.values()] is a list of them. *)
Definition Cred := nat.

Definition mem_cred (c : Cred) (l : list Cred) : bool :=
  existsb (Nat.eqb c) l.

(** Modelled from the spec: the close reasons of
    [pymongo.monitoring.ConnectionClosedReason] (the module is not part of
    the sources); the spec names STALE, IDLE, ERROR and POOL_CLOSED. *)
Module ConnectionClosedReason.
Inductive t := STALE | IDLE | ERROR | POOL_CLOSED.
End ConnectionClosedReason.

(** Modelled from the spec: the reasons of
    [pymongo.monitoring.ConnectionCheckOutFailedReason]; the spec names
    TIMEOUT, POOL_CLOSED and CONN_ERROR. *)
Module ConnectionCheckOutFailedReason.
Inductive t := TIMEOUT | POOL_CLOSED | CONN_ERROR.
End ConnectionCheckOutFailedReason.

(** The two condition variables of a pool; both share [Pool.lock]. *)
Inductive Cond := size_cond | _max_connecting_cond.

Inductive Effect :=
| publish_pool_created
| publish_pool_ready
| publish_pool_cleared
| publish_pool_closed
| publish_connection_created (conn_id : Z)
| publish_connection_ready (conn_id : Z)
| publish_connection_closed (conn_id : Z) (reason : ConnectionClosedReason.t)
| publish_connection_check_out_started
| publish_connection_check_out_failed (reason : ConnectionCheckOutFailedReason.t)
| publish_connection_checked_out (conn_id : Z)
| publish_connection_checked_in (conn_id : Z)
| sock_close (sock : Z)                          (* self.sock.close() *)
| sock_sendall (sock : Z) (message : list Byte.byte) (* self.sock.sendall(message) *)
| socket_checker_probe (sock : Z)                (* socket_checker.socket_closed(sock) *)
| notify (c : Cond)
| notify_all (c : Cond).

(** Exceptions raised by the collaborators, by class and text. *)
Inductive ErrorClass :=
| socket_timeout      (* socket.timeout, a subclass of OSError *)
| _SSLError
| OSError             (* IOError is OSError *)
| OperationFailure
| NotMasterError      (* a subclass of AutoReconnect *)
| OtherException      (* any other subclass of Exception *)
| KeyboardInterrupt.  (* and any other BaseException that is no Exception *)

Record PyError := { err_class : ErrorClass; err_str : string }.

(** [isinstance(error, Exception)] *)
Definition is_Exception (c : ErrorClass) : bool :=
  match c with
  | KeyboardInterrupt => false
  | _ => true
  end.

(** [isinstance(error, (IOError, OSError, _SSLError))] *)
Definition is_OSError_or_SSLError (c : ErrorClass) : bool :=
  match c with
  | socket_timeout | _SSLError | OSError => true
  | _ => false
  end.

(** Exceptions leaving the pool. *)
Inductive Exn :=
| _PoolClosedError
| NetworkTimeout (cause : string)
| AutoReconnect (cause : string)
| ConnectionFailure_wait_queue_timeout
| ExceededMaxWaiters (waiters : Z)
| DocumentTooLarge (max_doc_size max_bson_size : Z)
| Reraised (error : PyError).

Inductive result (A : Type) :=
| Ok (a : A)
| Raise (e : Exn).
Arguments Ok {A} a.
Arguments Raise {A} e.

(** Whether a handler [except Exception] catches [e]: the exceptions the
    pool raises itself are all subclasses of [Exception]. *)
Definition except_Exception (e : Exn) : bool :=
  match e with
  | Reraised error => is_Exception (err_class error)
  | _ => true
  end.

(** ['timed out' in str(error)] *)
Fixpoint prefix_of (p s : string) : bool :=
  match p, s with
  | EmptyString, _ => true
  | String a p', String b s' => Ascii.eqb a b && prefix_of p' s'
  | String _ _, EmptyString => false
  end.

Fixpoint contains (needle hay : string) : bool :=
  prefix_of needle hay ||
  match hay with
  | EmptyString => false
  | String _ hay' => contains needle hay'
  end.

(** [_raise_connection_failure(address, error)], lines 228-247.  The
    message is the error's text; the address prefix is the same for every
    error of a pool and is left out. *)
Definition _raise_connection_failure (error : PyError) : Exn :=
  match err_class error with
  | socket_timeout => NetworkTimeout (err_str error)
  | _SSLError =>
      if contains "timed out" (err_str error)
      then NetworkTimeout (err_str error)
      else AutoReconnect (err_str error)
  | _ => AutoReconnect (err_str error)
  end.

(** [_cond_wait(condition, deadline)], lines 250-252: [condition.wait]
    returns True when woken and False when the timeout elapsed; with no
    deadline (None, or a falsy 0) it waits without timeout and returns
    True. *)
Definition _cond_wait (deadline : option Time) (signalled : bool) : bool :=
  match deadline with
  | None => true
  | Some d => if d =? 0 then true else signalled
  end.

(** Comparisons against a bound that may be [float('inf')]. *)
Definition lt_bound (x : Z) (b : option Z) : bool :=
  match b with None => true | Some m => x <? m end.

Definition ge_bound (x : Z) (b : option Z) : bool :=
  match b with None => false | Some m => x >=? m end.

(** ** class PoolOptions (the options the pool reads) *)
Module PoolOptions.
Record t := mk {
  max_pool_size : option Z;
  min_pool_size : Z;
  max_idle_time_seconds : option Time;
  wait_queue_timeout : option Time;
  wait_queue_multiple : option Z;
  max_connecting : Z;
  pause_enabled : bool;
  (* event_listeners is None, or listeners with their enabled_for_cmap *)
  event_listeners : option bool
}.
End PoolOptions.

(** ** class SocketInfo *)
Module SocketInfo.

Record t := mk {
  sock : Z;
  id : Z;
  authset : list Cred;
  closed : bool;
  last_checkin_time : Time;
  is_writable : option bool;
  max_bson_size : option Z;
  enabled_for_cmap : bool;
  generation : Z;
  ready : bool;
  (* None outside Monitor pools, else the context's _cancelled flag *)
  cancel_context : option bool
}.

Definition set_closed (s : t) (v : bool) : t :=
  mk (sock s) (id s) (authset s) v (last_checkin_time s) (is_writable s)
     (max_bson_size s) (enabled_for_cmap s) (generation s) (ready s)
     (cancel_context s).
Definition set_cancel_context (s : t) (v : option bool) : t :=
  mk (sock s) (id s) (authset s) (closed s) (last_checkin_time s)
     (is_writable s) (max_bson_size s) (enabled_for_cmap s) (generation s)
     (ready s) v.
Definition set_last_checkin_time (s : t) (v : Time) : t :=
  mk (sock s) (id s) (authset s) (closed s) v (is_writable s)
     (max_bson_size s) (enabled_for_cmap s) (generation s) (ready s)
     (cancel_context s).
Definition set_is_writable (s : t) (v : option bool) : t :=
  mk (sock s) (id s) (authset s) (closed s) (last_checkin_time s) v
     (max_bson_size s) (enabled_for_cmap s) (generation s) (ready s)
     (cancel_context s).
Definition set_authset (s : t) (v : list Cred) : t :=
  mk (sock s) (id s) v (closed s) (last_checkin_time s) (is_writable s)
     (max_bson_size s) (enabled_for_cmap s) (generation s) (ready s)
     (cancel_context s).
Definition set_ready (s : t) (v : bool) : t :=
  mk (sock s) (id s) (authset s) (closed s) (last_checkin_time s)
     (is_writable s) (max_bson_size s) (enabled_for_cmap s) (generation s) v
     (cancel_context s).
Definition set_max_bson_size (s : t) (v : option Z) : t :=
  mk (sock s) (id s) (authset s) (closed s) (last_checkin_time s)
     (is_writable s) v (enabled_for_cmap s) (generation s) (ready s)
     (cancel_context s).

(** [_close_socket], lines 819-831; an exception of [sock.close()] is
    swallowed. *)
Definition _close_socket (self : t) : t * list Effect :=
  if closed self then (self, [])
  else
    let self := set_closed self true in
    let self :=
      match cancel_context self with
      | Some _ => set_cancel_context self (Some true)
      | None => self
      end in
    (self, [sock_close (sock self)]).

(** [close_socket(reason)], lines 810-817. *)
Definition close_socket (self : t) (reason : option ConnectionClosedReason.t)
  : t * list Effect :=
  if closed self then (self, [])
  else
    let '(self, l) := _close_socket self in
    match reason with
    | Some r =>
        if enabled_for_cmap self
        then (self, l ++ [publish_connection_closed (id self) r])
        else (self, l)
    | None => (self, l)
    end.

(** [update_last_checkin_time], [update_is_writable], [idle_time_seconds],
    lines 850-858. *)
Definition update_last_checkin_time (self : t) (now : Time) : t :=
  set_last_checkin_time self now.

Definition update_is_writable (self : t) (is_writable : option bool) : t :=
  set_is_writable self is_writable.

Definition idle_time_seconds (self : t) (now : Time) : Time :=
  now - last_checkin_time self.

(** The method [_raise_connection_failure(error)], lines 860-879. *)
Definition _raise_connection_failure (self : t) (error : PyError)
  : t * list Effect * Exn :=
  let '(self, l) := close_socket self (Some ConnectionClosedReason.ERROR) in
  if is_OSError_or_SSLError (err_class error)
  then (self, l, _raise_connection_failure error)
  else (self, l, Reraised error).

(** [send_message(message, max_doc_size)], lines 691-706.  [sendall] is
    what [self.sock.sendall(message)] does: [None] when it returns, the
    exception when it raises. *)
Definition send_message (self : t) (message : list Byte.byte)
    (max_doc_size : Z) (sendall : option PyError)
  : t * list Effect * result unit :=
  let too_large :=
    match max_bson_size self with
    | Some m => if max_doc_size >? m then Some m else None
    | None => None
    end in
  match too_large with
  | Some m => (self, [], Raise (DocumentTooLarge max_doc_size m))
  | None =>
      match sendall with
      | None => (self, [sock_sendall (sock self) message], Ok tt)
      | Some error =>
          let '(self', l, e) := _raise_connection_failure self error in
          (self', sock_sendall (sock self) message :: l, Raise e)
      end
  end.

(** [check_auth(all_credentials)], lines 764-783.  [authenticate c] is
    the outcome of [auth.authenticate(c, self)]: [None] when it returns,
    the exception when it raises. *)
Fixpoint authenticate_all (self : t) (all_credentials : list Cred)
    (authenticate : Cred -> option PyError) : t * option PyError :=
  match all_credentials with
  | [] => (self, None)
  | credentials :: rest =>
      if mem_cred credentials (authset self)
      then authenticate_all self rest authenticate
      else
        match authenticate credentials with
        | Some error => (self, Some error)
        | None =>
            authenticate_all
              (set_authset self (credentials :: authset self)) rest
              authenticate
        end
  end.

Definition check_auth (self : t) (all_credentials : list Cred)
    (authenticate : Cred -> option PyError)
  : t * list Effect * result unit :=
  match authenticate_all self all_credentials authenticate with
  | (self, Some error) => (self, [], Raise (Reraised error))
  | (self, None) =>
      if ready self then (self, [], Ok tt)
      else
        let self := set_ready self true in
        if enabled_for_cmap self
        then (self, [publish_connection_ready (id self)], Ok tt)
        else (self, [], Ok tt)
  end.

(** [receive_message(request_id)], lines 708-716.  [received] is what
    [pymongo.network.receive_message] does: the reply, or the exception it
    raises. *)
Definition receive_message (self : t) (received : Z + PyError)
  : t * list Effect * result Z :=
  match received with
  | inl reply => (self, [], Ok reply)
  | inr error =>
      let '(self, l, e) := _raise_connection_failure self error in
      (self, l, Raise e)
  end.

(** [_raise_if_not_writable(unacknowledged)], lines 718-725: the
    exception, when it raises.  [not self.is_writable] holds of False and
    of None. *)
Definition _raise_if_not_writable (self : t) (unacknowledged : bool)
  : option Exn :=
  if unacknowledged
     && negb match is_writable self with Some b => b | None => false end
  then Some (Reraised {| err_class := NotMasterError;
                         err_str := "not master" |})
  else None.

(** [legacy_write(request_id, msg, max_doc_size, with_last_error)], lines
    727-745.  [checked] is what [helpers._check_gle_response] makes of the
    reply: a response, or the exception it raises. *)
Definition legacy_write (self : t) (msg : list Byte.byte) (max_doc_size : Z)
    (with_last_error : bool) (sendall : option PyError)
    (received : Z + PyError) (checked : Z -> Z + PyError)
  : t * list Effect * result (option Z) :=
  match _raise_if_not_writable self (negb with_last_error) with
  | Some e => (self, [], Raise e)
  | None =>
      match send_message self msg max_doc_size sendall with
      | (self, l, Raise e) => (self, l, Raise e)
      | (self, l, Ok _) =>
          if with_last_error then
            match receive_message self received with
            | (self, l', Raise e) => (self, l ++ l', Raise e)
            | (self, l', Ok reply) =>
                match checked reply with
                | inl response => (self, l ++ l', Ok (Some response))
                | inr error => (self, l ++ l', Raise (Reraised error))
                end
            end
          else (self, l, Ok None)
      end
  end.

End SocketInfo.

(** The handshake reply, as far as the pool records it (lines 570-573). *)
Record IsMaster := {
  im_is_writable : bool;
  im_max_bson_size : option Z
}.

(** ** What the outside world answers during one atomic step *)
Record Env := {
  getpid : Z;                              (* os.getpid() *)
  monotonic : Time;                        (* time.monotonic() *)
  signalled : bool;                        (* condition.wait(timeout) *)
  socket_closed : bool;                    (* SocketChecker.socket_closed *)
  _configured_socket : Z + PyError;        (* the dialer: a socket or an error *)
  ismaster_reply : IsMaster + PyError;     (* the handshake command *)
  authenticate : Cred -> option PyError;   (* auth.authenticate *)
  (* pymongo.common.MAX_BSON_SIZE, a constant outside the sources *)
  MAX_BSON_SIZE : Z
}.

Inductive PoolState := PAUSED | READY | CLOSED.

Definition PoolState_eqb (a b : PoolState) : bool :=
  match a, b with
  | PAUSED, PAUSED | READY, READY | CLOSED, CLOSED => true
  | _, _ => false
  end.

(** ** class Pool *)
Module Pool.

Record t := mk {
  state : PoolState;
  _check_interval_seconds : option Time;
  sockets : list SocketInfo.t;     (* the deque, leftmost first *)
  active_sockets : Z;
  next_connection_id : Z;
  is_writable : option bool;
  generation : Z;
  pid : Z;
  opts : PoolOptions.t;
  handshake : bool;
  enabled_for_cmap : bool;
  requests : Z;
  max_pool_size : option Z;        (* None is float('inf') *)
  waiters : Z;
  max_waiters : option Z;          (* None is float('inf') *)
  _max_connecting : Z;
  _pending : Z;
  operation_count : Z
}.

Definition set_state (p : t) (v : PoolState) : t :=
  mk v (_check_interval_seconds p) (sockets p) (active_sockets p)
     (next_connection_id p) (is_writable p) (generation p) (pid p) (opts p)
     (handshake p) (enabled_for_cmap p) (requests p) (max_pool_size p)
     (waiters p) (max_waiters p) (_max_connecting p) (_pending p)
     (operation_count p).
Definition set_sockets (p : t) (v : list SocketInfo.t) : t :=
  mk (state p) (_check_interval_seconds p) v (active_sockets p)
     (next_connection_id p) (is_writable p) (generation p) (pid p) (opts p)
     (handshake p) (enabled_for_cmap p) (requests p) (max_pool_size p)
     (waiters p) (max_waiters p) (_max_connecting p) (_pending p)
     (operation_count p).
Definition set_active_sockets (p : t) (v : Z) : t :=
  mk (state p) (_check_interval_seconds p) (sockets p) v
     (next_connection_id p) (is_writable p) (generation p) (pid p) (opts p)
     (handshake p) (enabled_for_cmap p) (requests p) (max_pool_size p)
     (waiters p) (max_waiters p) (_max_connecting p) (_pending p)
     (operation_count p).
Definition set_next_connection_id (p : t) (v : Z) : t :=
  mk (state p) (_check_interval_seconds p) (sockets p) (active_sockets p)
     v (is_writable p) (generation p) (pid p) (opts p)
     (handshake p) (enabled_for_cmap p) (requests p) (max_pool_size p)
     (waiters p) (max_waiters p) (_max_connecting p) (_pending p)
     (operation_count p).
Definition set_is_writable (p : t) (v : option bool) : t :=
  mk (state p) (_check_interval_seconds p) (sockets p) (active_sockets p)
     (next_connection_id p) v (generation p) (pid p) (opts p)
     (handshake p) (enabled_for_cmap p) (requests p) (max_pool_size p)
     (waiters p) (max_waiters p) (_max_connecting p) (_pending p)
     (operation_count p).
Definition set_generation (p : t) (v : Z) : t :=
  mk (state p) (_check_interval_seconds p) (sockets p) (active_sockets p)
     (next_connection_id p) (is_writable p) v (pid p) (opts p)
     (handshake p) (enabled_for_cmap p) (requests p) (max_pool_size p)
     (waiters p) (max_waiters p) (_max_connecting p) (_pending p)
     (operation_count p).
Definition set_pid (p : t) (v : Z) : t :=
  mk (state p) (_check_interval_seconds p) (sockets p) (active_sockets p)
     (next_connection_id p) (is_writable p) (generation p) v (opts p)
     (handshake p) (enabled_for_cmap p) (requests p) (max_pool_size p)
     (waiters p) (max_waiters p) (_max_connecting p) (_pending p)
     (operation_count p).
Definition set_requests (p : t) (v : Z) : t :=
  mk (state p) (_check_interval_seconds p) (sockets p) (active_sockets p)
     (next_connection_id p) (is_writable p) (generation p) (pid p) (opts p)
     (handshake p) (enabled_for_cmap p) v (max_pool_size p)
     (waiters p) (max_waiters p) (_max_connecting p) (_pending p)
     (operation_count p).
Definition set_waiters (p : t) (v : Z) : t :=
  mk (state p) (_check_interval_seconds p) (sockets p) (active_sockets p)
     (next_connection_id p) (is_writable p) (generation p) (pid p) (opts p)
     (handshake p) (enabled_for_cmap p) (requests p) (max_pool_size p)
     v (max_waiters p) (_max_connecting p) (_pending p)
     (operation_count p).
Definition set__pending (p : t) (v : Z) : t :=
  mk (state p) (_check_interval_seconds p) (sockets p) (active_sockets p)
     (next_connection_id p) (is_writable p) (generation p) (pid p) (opts p)
     (handshake p) (enabled_for_cmap p) (requests p) (max_pool_size p)
     (waiters p) (max_waiters p) (_max_connecting p) v
     (operation_count p).
Definition set_operation_count (p : t) (v : Z) : t :=
  mk (state p) (_check_interval_seconds p) (sockets p) (active_sockets p)
     (next_connection_id p) (is_writable p) (generation p) (pid p) (opts p)
     (handshake p) (enabled_for_cmap p) (requests p) (max_pool_size p)
     (waiters p) (max_waiters p) (_max_connecting p) (_pending p) v.

(** An event goes to the listeners only in a pool enabled for CMAP. *)
Definition publish (self : t) (e : Effect) : list Effect :=
  if enabled_for_cmap self then [e] else [].

(** [Pool.__init__], lines 1031-1095. *)
Definition __init__ (options : PoolOptions.t) (handshake : bool)
    (env : Env) : t * list Effect :=
  let enabled_for_cmap :=
    handshake &&
    match PoolOptions.event_listeners options with
    | Some enabled => enabled
    | None => false
    end in
  let max_waiters :=
    match PoolOptions.wait_queue_multiple options,
          PoolOptions.max_pool_size options with
    | Some multiple, Some size => Some (size * multiple)
    | _, _ => None
    end in
  let self :=
    mk (if PoolOptions.pause_enabled options then PAUSED else READY)
       (Some 1000) [] 0 1 None 0 (getpid env) options handshake
       enabled_for_cmap 0 (PoolOptions.max_pool_size options) 0 max_waiters
       (PoolOptions.max_connecting options) 0 0 in
  (self, publish self publish_pool_created).

(** [ready], lines 1097-1101. *)
Definition ready (self : t) : t * list Effect :=
  let old_state := state self in
  let self := set_state self READY in
  if negb (PoolState_eqb old_state READY)
  then (self, publish self publish_pool_ready)
  else (self, []).

(** The property [closed], lines 1103-1105. *)
Definition closed (self : t) : bool := PoolState_eqb (state self) CLOSED.

(** [for sock_info in sockets: sock_info.close_socket(reason)] *)
Fixpoint close_sockets (sockets : list SocketInfo.t)
    (reason : ConnectionClosedReason.t) : list SocketInfo.t * list Effect :=
  match sockets with
  | [] => ([], [])
  | sock_info :: rest =>
      let '(sock_info, l) := SocketInfo.close_socket sock_info (Some reason) in
      let '(rest, l') := close_sockets rest reason in
      (sock_info :: rest, l ++ l')
  end.

(** [_reset(close, pause)], lines 1107-1140.  The result also carries the
    drained connections as [_reset] leaves them. *)
Definition _reset (self : t) (close pause : bool) (env : Env)
  : t * list SocketInfo.t * list Effect :=
  let old_state := state self in
  if closed self then (self, [], [])
  else
    let '(old_state, self) :=
      if PoolOptions.pause_enabled (opts self) && pause
      then (state self, set_state self PAUSED)
      else (old_state, self) in
    let self := set_generation self (generation self + 1) in
    let newpid := getpid env in
    let self :=
      if negb (pid self =? newpid)
      then set_operation_count
             (set_active_sockets (set_pid self newpid) 0) 0
      else self in
    let sockets := sockets self in
    let self := set_sockets self [] in
    let self := if close then set_state self CLOSED else self in
    let woken := [notify_all _max_connecting_cond; notify_all size_cond] in
    if close then
      let '(sockets, l) :=
        close_sockets sockets ConnectionClosedReason.POOL_CLOSED in
      (self, sockets, woken ++ l ++ publish self publish_pool_closed)
    else
      let cleared :=
        if negb (PoolState_eqb old_state PAUSED)
        then publish self publish_pool_cleared else [] in
      let '(sockets, l) :=
        close_sockets sockets ConnectionClosedReason.STALE in
      (self, sockets, woken ++ cleared ++ l).

(** [update_is_writable], lines 1142-1149. *)
Definition update_is_writable (self : t) (is_writable : option bool) : t :=
  let self := set_is_writable self is_writable in
  set_sockets self
    (map (fun socket => SocketInfo.update_is_writable socket is_writable)
         (sockets self)).

(** [reset], [reset_without_pause], [close], lines 1151-1158. *)
Definition reset (self : t) (env : Env) := _reset self false true env.
Definition reset_without_pause (self : t) (env : Env) :=
  _reset self false false env.
Definition close (self : t) (env : Env) := _reset self true true env.

(** [_perished(sock_info)], lines 1441-1473.  Returns the answer, the
    connection as [_perished] leaves it, and what it did. *)
Definition _perished (self : t) (sock_info : SocketInfo.t) (env : Env)
  : bool * SocketInfo.t * list Effect :=
  let idle_time_seconds :=
    SocketInfo.idle_time_seconds sock_info (monotonic env) in
  let idle :=
    match PoolOptions.max_idle_time_seconds (opts self) with
    | Some max_idle => idle_time_seconds >? max_idle
    | None => false
    end in
  if idle then
    let '(sock_info, l) :=
      SocketInfo.close_socket sock_info (Some ConnectionClosedReason.IDLE) in
    (true, sock_info, l)
  else
    let check :=
      match _check_interval_seconds self with
      | Some interval => (0 =? interval) || (idle_time_seconds >? interval)
      | None => false
      end in
    if check && socket_closed env then
      let '(sock_info', l) :=
        SocketInfo.close_socket sock_info
          (Some ConnectionClosedReason.ERROR) in
      (true, sock_info', socket_checker_probe (SocketInfo.sock sock_info) :: l)
    else
      let probed :=
        if check then [socket_checker_probe (SocketInfo.sock sock_info)]
        else [] in
      if negb (SocketInfo.generation sock_info =? generation self) then
        let '(sock_info, l) :=
          SocketInfo.close_socket sock_info
            (Some ConnectionClosedReason.STALE) in
        (true, sock_info, probed ++ l)
      else (false, sock_info, probed).

(** [SocketInfo.__init__], lines 497-532, for a connection of this pool. *)
Definition new_SocketInfo (self : t) (sock : Z) (id : Z) (env : Env)
  : SocketInfo.t :=
  SocketInfo.mk sock id [] false (monotonic env) (Some false)
    (Some (MAX_BSON_SIZE env)) (enabled_for_cmap self) (generation self)
    false (if handshake self then None else Some false).

(** [sock_info.ismaster(all_credentials)] as [connect] uses it: the
    command either answers, and lines 571-573 record the reply, or raises,
    and [SocketInfo.command] (lines 685-689) lets an OperationFailure pass
    and closes the connection on anything else. *)
Definition ismaster (sock_info : SocketInfo.t) (env : Env)
  : SocketInfo.t * list Effect * result unit :=
  match ismaster_reply env with
  | inl reply =>
      (SocketInfo.set_max_bson_size
         (SocketInfo.set_is_writable sock_info (Some (im_is_writable reply)))
         (im_max_bson_size reply), [], Ok tt)
  | inr error =>
      match err_class error with
      | OperationFailure => (sock_info, [], Raise (Reraised error))
      | _ =>
          let '(sock_info, l, e) :=
            SocketInfo._raise_connection_failure sock_info error in
          (sock_info, l, Raise e)
      end
  end.

(** [connect(all_credentials)], lines 1213-1252. *)
Definition connect (self : t) (all_credentials : list Cred) (env : Env)
  : t * list Effect * result SocketInfo.t :=
  let conn_id := next_connection_id self in
  let self := set_next_connection_id self (next_connection_id self + 1) in
  let created := publish self (publish_connection_created conn_id) in
  match _configured_socket env with
  | inr error =>
      if is_Exception (err_class error) then      (* except Exception: *)
        let l :=
          created ++
          publish self
            (publish_connection_closed conn_id ConnectionClosedReason.ERROR) in
        if is_OSError_or_SSLError (err_class error)
        then (self, l, Raise (_raise_connection_failure error))
        else (self, l, Raise (Reraised error))
      else (self, created, Raise (Reraised error))
  | inl sock =>
      let sock_info := new_SocketInfo self sock conn_id env in
      let '(self, sock_info, l1, r) :=
        if handshake self then
          match ismaster sock_info env with
          | (sock_info, l, Ok _) =>
              (set_is_writable self (SocketInfo.is_writable sock_info),
               sock_info, l, Ok tt)
          | (sock_info, l, Raise e) => (self, sock_info, l, Raise e)
          end
        else (self, sock_info, [], Ok tt) in
      match r with
      | Raise e => (self, created ++ l1, Raise e)
      | Ok _ =>
          match SocketInfo.check_auth sock_info all_credentials
                  (authenticate env) with
          | (sock_info, l2, Ok _) => (self, created ++ l1 ++ l2, Ok sock_info)
          | (sock_info, l2, Raise e) =>
              if except_Exception e then          (* except Exception: *)
                let '(_, l3) :=
                  SocketInfo.close_socket sock_info
                    (Some ConnectionClosedReason.ERROR) in
                (self, created ++ l1 ++ l2 ++ l3, Raise e)
              else (self, created ++ l1 ++ l2, Raise e)
          end
      end
  end.

(** [_raise_if_not_ready(emit_event)], lines 1296-1302: [None] when the
    pool is READY, else the events and the exception. *)
Definition _raise_if_not_ready (self : t) (emit_event : bool)
  : option (list Effect * Exn) :=
  if negb (PoolState_eqb (state self) READY) then
    Some ((if emit_event
           then publish self
                  (publish_connection_check_out_failed
                     ConnectionCheckOutFailedReason.CONN_ERROR)
           else []),
          _raise_connection_failure
            {| err_class := OtherException;
               err_str := "connection pool paused" |})
  else None.

(** [_raise_wait_queue_timeout], lines 1475-1483. *)
Definition _raise_wait_queue_timeout (self : t) : list Effect * Exn :=
  (publish self
     (publish_connection_check_out_failed
        ConnectionCheckOutFailedReason.TIMEOUT),
   ConnectionFailure_wait_queue_timeout).

(** *** [get_socket] and [_get_socket], lines 1255-1406

    Program points, named by the line the thread is about to run.  At
    [L1338] and [L1365] the thread is blocked in [_cond_wait] with the lock
    released; at [L1385] it is about to dial, outside the lock.  The
    handler of line 1391 is [except Exception]: an exception of [connect]
    or [check_auth] that it does not catch leaves [_get_socket] at once,
    after the [finally] of line 1386 when it comes from [connect]. *)
Inductive gs_pc :=
| L1277                           (* get_socket: CheckOutStarted *)
| L1309                           (* fork check and closed check *)
| L1320                           (* operation_count += 1; deadline *)
| L1329 (deadline : option Time)  (* with self.size_cond: *)
| L1338 (deadline : option Time)  (* in _cond_wait(self.size_cond) *)
| L1354 (deadline : option Time)  (* active_sockets += 1 *)
| L1361 (deadline : option Time)  (* with self._max_connecting_cond: *)
| L1365 (deadline : option Time)  (* in _cond_wait(_max_connecting_cond) *)
| L1380 (deadline : option Time) (sock_info : SocketInfo.t) (* _perished *)
| L1385 (deadline : option Time)  (* connect *)
| L1387 (connected : result SocketInfo.t)  (* finally: _pending -= 1 *)
| L1390 (sock_info : SocketInfo.t)         (* check_auth *)
| L1391 (sock_info : option SocketInfo.t) (incremented emitted_event : bool)
        (e : Exn)                 (* except Exception: *)
| L1283 (sock_info : SocketInfo.t)         (* get_socket: CheckedOut *)
| Returned (sock_info : SocketInfo.t)
| Raised (e : Exn).

(** Line 1337 with the lock held: leave the loop and take a request, or
    wait. *)
Definition admission_loop (self : t) (deadline : option Time)
  : t * gs_pc * list Effect :=
  if lt_bound (requests self) (max_pool_size self) then
    let self := set_waiters self (waiters self - 1) in
    let self := set_requests self (requests self + 1) in
    (self, L1354 deadline, [])
  else (self, L1338 deadline, []).

(** [self.sockets or self._pending < self._max_connecting] *)
Definition creation_pred (self : t) : bool :=
  match sockets self with
  | _ :: _ => true
  | [] => _pending self <? _max_connecting self
  end.

(** Line 1363 with the lock held: pop a connection, or count a pending
    creation, or wait. *)
Definition creation_loop (self : t) (deadline : option Time)
  : t * gs_pc * list Effect :=
  if creation_pred self then
    match sockets self with
    | sock_info :: rest => (set_sockets self rest, L1380 deadline sock_info, [])
    | [] => (set__pending self (_pending self + 1), L1385 deadline, [])
    end
  else (self, L1365 deadline, []).

Definition get_socket_step (all_credentials : list Cred) (env : Env)
    (self : t) (pc : gs_pc) : t * gs_pc * list Effect :=
  match pc with
  | L1277 => (self, L1309, publish self publish_connection_check_out_started)
  | L1309 =>
      let '(self, l0) :=
        if negb (pid self =? getpid env)
        then let '(self, _, l) := reset self env in (self, l)
        else (self, []) in
      if closed self then
        (self, Raised _PoolClosedError,
         l0 ++ publish self
                 (publish_connection_check_out_failed
                    ConnectionCheckOutFailedReason.POOL_CLOSED))
      else (self, L1320, l0)
  | L1320 =>
      let self := set_operation_count self (operation_count self + 1) in
      let deadline :=
        match PoolOptions.wait_queue_timeout (opts self) with
        | Some timeout =>
            if timeout =? 0 then None else Some (monotonic env + timeout)
        | None => None
        end in
      (self, L1329 deadline, [])
  | L1329 deadline =>
      match _raise_if_not_ready self true with
      | Some (l, e) => (self, Raised e, l)
      | None =>
          if ge_bound (waiters self) (max_waiters self)
          then (self, Raised (ExceededMaxWaiters (waiters self)), [])
          else admission_loop (set_waiters self (waiters self + 1)) deadline
      end
  | L1338 deadline =>
      if negb (_cond_wait deadline (signalled env)) then
        let notified :=
          if lt_bound (requests self) (max_pool_size self)
          then [notify size_cond] else [] in
        let '(l, e) := _raise_wait_queue_timeout self in
        (set_waiters self (waiters self - 1), Raised e, notified ++ l)
      else
        match _raise_if_not_ready self true with
        | Some (l, e) => (set_waiters self (waiters self - 1), Raised e, l)
        | None => admission_loop self deadline
        end
  | L1354 deadline =>
      (set_active_sockets self (active_sockets self + 1), L1361 deadline, [])
  | L1361 deadline =>
      match _raise_if_not_ready self false with
      | Some (l, e) => (self, L1391 None true false e, l)
      | None => creation_loop self deadline
      end
  | L1365 deadline =>
      if negb (_cond_wait deadline (signalled env)) then
        let notified :=
          if creation_pred self then [notify _max_connecting_cond] else [] in
        let '(l, e) := _raise_wait_queue_timeout self in
        (self, L1391 None true true e, notified ++ l)
      else
        match _raise_if_not_ready self false with
        | Some (l, e) => (self, L1391 None true false e, l)
        | None => creation_loop self deadline
        end
  | L1380 deadline sock_info =>
      match _perished self sock_info env with
      | (true, _, l) => (self, L1361 deadline, l)
      | (false, sock_info, l) => (self, L1390 sock_info, l)
      end
  | L1385 deadline =>
      let '(self, l, connected) := connect self all_credentials env in
      (self, L1387 connected, l)
  | L1387 connected =>
      let self := set__pending self (_pending self - 1) in
      match connected with
      | Ok sock_info => (self, L1390 sock_info, [notify _max_connecting_cond])
      | Raise e =>
          (self,
           (if except_Exception e then L1391 None true false e else Raised e),
           [notify _max_connecting_cond])
      end
  | L1390 sock_info =>
      match SocketInfo.check_auth sock_info all_credentials
              (authenticate env) with
      | (sock_info, l, Ok _) => (self, L1283 sock_info, l)
      | (sock_info, l, Raise e) =>
          (self,
           (if except_Exception e
            then L1391 (Some sock_info) true false e else Raised e),
           l)
      end
  | L1391 sock_info incremented emitted_event e =>
      let l1 :=
        match sock_info with
        | Some sock_info =>
            snd (SocketInfo.close_socket sock_info
                   (Some ConnectionClosedReason.ERROR))
        | None => []
        end in
      let self := set_requests self (requests self - 1) in
      let self :=
        if incremented
        then set_active_sockets self (active_sockets self - 1)
        else self in
      let l3 :=
        if negb emitted_event
        then publish self
               (publish_connection_check_out_failed
                  ConnectionCheckOutFailedReason.CONN_ERROR)
        else [] in
      (self, Raised e, l1 ++ [notify size_cond] ++ l3)
  | L1283 sock_info =>
      (self, Returned sock_info,
       publish self
         (publish_connection_checked_out (SocketInfo.id sock_info)))
  | Returned _ | Raised _ => (self, pc, [])
  end.

(** *** [return_socket], lines 1408-1439 *)
Inductive rs_pc :=
| R1414 (sock_info : SocketInfo.t)   (* CheckedIn, then the three cases *)
| R1435 (sock_info : SocketInfo.t)   (* with self.size_cond: unwind *)
| R_returned (sock_info : SocketInfo.t).

Definition return_socket_step (env : Env) (self : t) (pc : rs_pc)
  : t * rs_pc * list Effect :=
  match pc with
  | R1414 sock_info =>
      let l0 :=
        publish self
          (publish_connection_checked_in (SocketInfo.id sock_info)) in
      if negb (pid self =? getpid env) then
        let '(self, _, l) := reset self env in
        (self, R1435 sock_info, l0 ++ l)
      else if closed self then
        let '(sock_info, l) :=
          SocketInfo.close_socket sock_info
            (Some ConnectionClosedReason.POOL_CLOSED) in
        (self, R1435 sock_info, l0 ++ l)
      else if negb (SocketInfo.closed sock_info) then
        if negb (SocketInfo.generation sock_info =? generation self) then
          let '(sock_info, l) :=
            SocketInfo.close_socket sock_info
              (Some ConnectionClosedReason.STALE) in
          (self, R1435 sock_info, l0 ++ l)
        else
          let sock_info :=
            SocketInfo.update_last_checkin_time sock_info (monotonic env) in
          let sock_info :=
            SocketInfo.update_is_writable sock_info (is_writable self) in
          (set_sockets self (sock_info :: sockets self), R1435 sock_info,
           l0 ++ [notify _max_connecting_cond])
      else (self, R1435 sock_info, l0)
  | R1435 sock_info =>
      let self := set_requests self (requests self - 1) in
      let self := set_active_sockets self (active_sockets self - 1) in
      let self := set_operation_count self (operation_count self - 1) in
      (self, R_returned sock_info, [notify size_cond])
  | R_returned _ => (self, pc, [])
  end.

(** [return_socket(sock_info)] run from its first line to its last. *)
Definition return_socket (self : t) (sock_info : SocketInfo.t) (env : Env)
  : t * SocketInfo.t * list Effect :=
  let '(self, pc, l1) := return_socket_step env self (R1414 sock_info) in
  let '(self, pc, l2) := return_socket_step env self pc in
  match pc with
  | R1414 sock_info | R1435 sock_info | R_returned sock_info =>
      (self, sock_info, l1 ++ l2)
  end.

(** *** [remove_stale_sockets], lines 1160-1211 *)

(** The loop of lines 1171-1174 over the deque read from its right end;
    the loop runs under the lock and all its clock readings are taken as
    the one reading [now]. *)
Fixpoint prune_idle (from_right : list SocketInfo.t) (now max_idle : Time)
  : list SocketInfo.t * list Effect :=
  match from_right with
  | [] => ([], [])
  | sock_info :: rest =>
      if SocketInfo.idle_time_seconds sock_info now >? max_idle then
        let '(_, l) :=
          SocketInfo.close_socket sock_info
            (Some ConnectionClosedReason.IDLE) in
        let '(kept, l') := prune_idle rest now max_idle in
        (kept, l ++ l')
      else (from_right, [])
  end.

(** How the [finally] of lines 1202-1211 is left. *)
Inductive ms_next := ms_continue | ms_return | ms_reraise (e : Exn).

Inductive ms_pc :=
| M1166                              (* state check and idle prune *)
| M1177                              (* with self.size_cond: *)
| M1187                              (* with self._max_connecting_cond: *)
| M1194                              (* connect *)
| M1195 (sock_info : SocketInfo.t)   (* with self.lock: generation check *)
| M1203 (incremented : bool) (next : ms_next)  (* finally: _pending *)
| M1209 (next : ms_next)             (* finally: requests *)
| M_returned
| M_raised (e : Exn).

Definition remove_stale_sockets_step (reference_generation : Z)
    (all_credentials : list Cred) (env : Env) (self : t) (pc : ms_pc)
  : t * ms_pc * list Effect :=
  match pc with
  | M1166 =>
      if negb (PoolState_eqb (state self) READY) then (self, M_returned, [])
      else
        match PoolOptions.max_idle_time_seconds (opts self) with
        | Some max_idle =>
            let '(kept, l) :=
              prune_idle (rev (sockets self)) (monotonic env) max_idle in
            (set_sockets self (rev kept), M1177, l)
        | None => (self, M1177, [])
        end
  | M1177 =>
      if Z.of_nat (List.length (sockets self)) + active_sockets self
         >=? PoolOptions.min_pool_size (opts self)
      then (self, M_returned, [])
      else if requests self >=? PoolOptions.min_pool_size (opts self)
      then (self, M_returned, [])
      else (set_requests self (requests self + 1), M1187, [])
  | M1187 =>
      if _pending self >=? _max_connecting self
      then (self, M1203 false ms_return, [])
      else (set__pending self (_pending self + 1), M1194, [])
  | M1194 =>
      match connect self all_credentials env with
      | (self, l, Ok sock_info) => (self, M1195 sock_info, l)
      | (self, l, Raise e) => (self, M1203 true (ms_reraise e), l)
      end
  | M1195 sock_info =>
      if negb (generation self =? reference_generation) then
        let '(_, l) :=
          SocketInfo.close_socket sock_info
            (Some ConnectionClosedReason.STALE) in
        (self, M1203 true ms_return, l)
      else
        (set_sockets self (sock_info :: sockets self),
         M1203 true ms_continue, [])
  | M1203 incremented next =>
      if incremented
      then (set__pending self (_pending self - 1), M1209 next,
            [notify _max_connecting_cond])
      else (self, M1209 next, [])
  | M1209 next =>
      (set_requests self (requests self - 1),
       match next with
       | ms_continue => M1177
       | ms_return => M_returned
       | ms_reraise e => M_raised e
       end,
       [notify size_cond])
  | M_returned | M_raised _ => (self, pc, [])
  end.

(** [__del__], lines 1485-1490: every connection of the deque is closed
    with no reason.  The result is the connections as it leaves them. *)
Fixpoint __del__sockets (sockets : list SocketInfo.t)
  : list SocketInfo.t * list Effect :=
  match sockets with
  | [] => ([], [])
  | sock_info :: rest =>
      let '(sock_info, l) := SocketInfo.close_socket sock_info None in
      let '(rest, l') := __del__sockets rest in
      (sock_info :: rest, l ++ l')
  end.

Definition __del__ (self : t) : list SocketInfo.t * list Effect :=
  __del__sockets (sockets self).

End Pool.

(** ** The dialer: [_create_connection] and [_configured_socket] *)
Module Dial.

Inductive Family := AF_UNIX | AF_INET | AF_UNSPEC.

(** One entry of the answer of [socket.getaddrinfo], as far as the loop of
    line 930 reads it. *)
Record AddrInfo := { af : Family; sa : string }.

(** What happens when a socket is created for an address and connected,
    lines 912-916 and 936-951. *)
Inductive Attempt :=
| socket_raises (e : PyError)              (* socket.socket: 912, 936, 941 *)
| set_non_inheritable_raises (e : PyError) (* line 914 or 943 *)
| connect_raises (e : PyError)             (* line 916, or one of 945-951 *)
| connects.

(** What [ssl_context.wrap_socket] and [ssl.match_hostname] do. *)
Inductive TlsCall :=
| passes
| raises_CertificateError
| raises (e : PyError).                    (* anything else *)

(** The platform and the network. *)
Record Net := {
  has_AF_UNIX : bool;                  (* hasattr(socket, "AF_UNIX") *)
  has_ipv6 : bool;                     (* socket.has_ipv6 *)
  (* ssl.SSLError is an OSError; the SSLError of PyOpenSSL is not
     (line 875) *)
  SSLError_is_OSError : bool;
  getaddrinfo : string -> Family -> list AddrInfo + PyError;
  attempt : AddrInfo -> Attempt;
  unix_attempt : string -> Attempt;    (* lines 912-916 *)
  (* pymongo.ssl_support.HAS_SNI and IPADDR_SAFE, outside the sources *)
  _HAVE_SNI : bool;
  _IPADDR_SAFE : bool;
  is_ip_address : string -> bool;      (* ipaddress.ip_address parses it *)
  wrap_socket : TlsCall;               (* lines 988 and 990 *)
  match_hostname : TlsCall;            (* line 1006, with getpeercert *)
  settimeout : option Time -> option PyError  (* line 1011 *)
}.

(** [except socket.error]: [socket.error] is [OSError]. *)
Definition is_socket_error (net : Net) (c : ErrorClass) : bool :=
  match c with
  | socket_timeout | OSError => true
  | _SSLError => SSLError_is_OSError net
  | _ => false
  end.

Record SSLContext := {
  verify_mode : bool;                  (* truthy, i.e. not CERT_NONE *)
  check_hostname : bool                (* getattr(..., False) *)
}.

(** The options [_configured_socket] reads itself. *)
Module Options.
Record t := mk {
  socket_timeout : option Time;
  ssl_context : option SSLContext;
  ssl_match_hostname : bool
}.
End Options.

(** What the dialer does with sockets.  The k-th socket it creates is
    known by the handle [fd + k]. *)
Inductive DialEffect :=
| opened (fd : Z) (family : Family)
| connected (fd : Z) (address : string)
| closed (fd : Z)
| wrapped (fd : Z) (server_hostname : option string)
| timeout_set (fd : Z) (timeout : option Time).

(** How the dialer ends. *)
Inductive Dialed :=
| Socket (fd : Z)
| RaiseError (e : PyError)      (* an exception of a collaborator *)
| RaiseExn (e : Exn)            (* from _raise_connection_failure *)
| RaiseCertificateError.

(** [host.endswith('.sock')] *)
Definition ends_with (suffix s : string) : bool :=
  prefix_of (String.string_of_list_ascii
               (rev (String.list_ascii_of_string suffix)))
            (String.string_of_list_ascii
               (rev (String.list_ascii_of_string s))).

(** The loop of lines 930-955, with the error kept so far.  Only a
    [socket.error] of lines 945-951 is caught: the socket is closed and
    the next address tried.  Any other exception leaves the loop with the
    socket as it is. *)
Fixpoint try_addresses (net : Net) (addresses : list AddrInfo) (fd : Z)
    (err : option PyError) : list DialEffect * Dialed :=
  match addresses with
  | [] =>
      match err with
      | Some e => ([], RaiseError e)
      | None =>
          ([], RaiseError {| err_class := OSError;
                             err_str := "getaddrinfo failed" |})
      end
  | res :: rest =>
      match attempt net res with
      | socket_raises e => ([], RaiseError e)
      | set_non_inheritable_raises e => ([opened fd (af res)], RaiseError e)
      | connects =>
          ([opened fd (af res); connected fd (sa res)], Socket fd)
      | connect_raises e =>
          if is_socket_error net (err_class e) then
            let '(l, r) := try_addresses net rest (fd + 1) (Some e) in
            (opened fd (af res) :: closed fd :: l, r)
          else ([opened fd (af res)], RaiseError e)
      end
  end.

(** [_create_connection(address, options)], lines 898-964. *)
Definition _create_connection (net : Net) (host : string) (fd : Z)
  : list DialEffect * Dialed :=
  if ends_with ".sock" host then
    if negb (has_AF_UNIX net) then
      ([], RaiseError
             {| err_class := OtherException;
                err_str := "UNIX-sockets are not supported on this system" |})
    else
      match unix_attempt net host with
      | socket_raises e => ([], RaiseError e)
      | set_non_inheritable_raises e => ([opened fd AF_UNIX], RaiseError e)
      | connects => ([opened fd AF_UNIX; connected fd host], Socket fd)
      | connect_raises e =>
          if is_socket_error net (err_class e)
          then ([opened fd AF_UNIX; closed fd], RaiseError e)
          else ([opened fd AF_UNIX], RaiseError e)
      end
  else
    let family :=
      if has_ipv6 net && negb (String.eqb host "localhost")
      then AF_UNSPEC else AF_INET in
    match getaddrinfo net host family with
    | inr e => ([], RaiseError e)
    | inl addresses => try_addresses net addresses fd None
    end.

(** [_raise_connection_failure(address, exc, "SSL handshake failed: ")]:
    the class is decided on the error, the prefix goes before the text. *)
Definition handshake_failed (error : PyError) : Exn :=
  match _raise_connection_failure error with
  | NetworkTimeout cause => NetworkTimeout ("SSL handshake failed: " ++ cause)
  | AutoReconnect cause => AutoReconnect ("SSL handshake failed: " ++ cause)
  | e => e
  end.

(** Lines 1011-1012: the socket timeout is set and the socket returned;
    an exception of [settimeout] passes with the socket as it is. *)
Definition set_timeout_and_return (net : Net) (options : Options.t)
    (l : list DialEffect) (sock : Z) : list DialEffect * Dialed :=
  match settimeout net (Options.socket_timeout options) with
  | None =>
      (l ++ [timeout_set sock (Options.socket_timeout options)], Socket sock)
  | Some e => (l, RaiseError e)
  end.

(** [_configured_socket(address, options)], lines 967-1012.  The socket
    is closed after a CertificateError and, of [wrap_socket], after an
    IOError, OSError or SSLError; any other exception passes with the
    socket as it is. *)
Definition _configured_socket (net : Net) (host : string) (options : Options.t)
    (fd : Z) : list DialEffect * Dialed :=
  match _create_connection net host fd with
  | (l, Socket sock) =>
      match Options.ssl_context options with
      | None => set_timeout_and_return net options l sock
      | Some context =>
          let server_hostname :=
            if _HAVE_SNI net
               && (negb (is_ip_address net host) || _IPADDR_SAFE net)
            then Some host else None in
          match wrap_socket net with
          | raises_CertificateError =>
              (l ++ [closed sock], RaiseCertificateError)
          | raises error =>
              if is_OSError_or_SSLError (err_class error)
              then (l ++ [closed sock], RaiseExn (handshake_failed error))
              else (l, RaiseError error)
          | passes =>
              let l := l ++ [wrapped sock server_hostname] in
              if verify_mode context && negb (check_hostname context)
                 && Options.ssl_match_hostname options
              then
                match match_hostname net with
                | passes => set_timeout_and_return net options l sock
                | raises_CertificateError =>
                    (l ++ [closed sock], RaiseCertificateError)
                | raises error => (l, RaiseError error)
                end
              else set_timeout_and_return net options l sock
          end
      end
  | (l, raised) => (l, raised)
  end.

End Dial.

(** ** Sequential runs of one method *)

(** The thread of [get_socket] taking one atomic step per element of
    [envs], nothing else touching the pool in between. *)
Fixpoint get_socket_run (all_credentials : list Cred) (envs : list Env)
    (self : Pool.t) (pc : Pool.gs_pc) : Pool.t * Pool.gs_pc * list Effect :=
  match envs with
  | [] => (self, pc, [])
  | env :: envs =>
      let '(self, pc, l) := Pool.get_socket_step all_credentials env self pc in
      let '(self, pc, l') := get_socket_run all_credentials envs self pc in
      (self, pc, l ++ l')
  end.

(** The pool before and after each step of that run. *)
Fixpoint get_socket_steps (all_credentials : list Cred) (envs : list Env)
    (self : Pool.t) (pc : Pool.gs_pc) : list (Pool.t * Pool.t) :=
  match envs with
  | [] => []
  | env :: envs =>
      let '(self', pc, _) :=
        Pool.get_socket_step all_credentials env self pc in
      (self, self') :: get_socket_steps all_credentials envs self' pc
  end.

(** Checkouts attempted one after the other, each from line 1277. *)
Fixpoint checkouts (attempts : list (list Cred * list Env)) (self : Pool.t)
  : Pool.t * list Pool.gs_pc * list Effect :=
  match attempts with
  | [] => (self, [], [])
  | (all_credentials, envs) :: rest =>
      let '(self, pc, l) :=
        get_socket_run all_credentials envs self Pool.L1277 in
      let '(self, pcs, l') := checkouts rest self in
      (self, pc :: pcs, l ++ l')
  end.

(** ** One thread of [get_socket] among others

    [gs_exec creds pc steps l pc'] : the thread goes from [pc] to [pc'] in
    atomic steps; [steps] lists, for each of them, the pool it found and
    the pool it left, and [l] is what the thread did.  Between two steps
    the other threads may have changed the pool in any way. *)
Inductive gs_exec (all_credentials : list Cred)
  : Pool.gs_pc -> list (Pool.t * Pool.t) -> list Effect -> Pool.gs_pc -> Prop :=
| gs_exec_done pc : gs_exec all_credentials pc [] [] pc
| gs_exec_step env self self' pc pc' l steps l' pc'' :
    Pool.get_socket_step all_credentials env self pc = (self', pc', l) ->
    gs_exec all_credentials pc' steps l' pc'' ->
    gs_exec all_credentials pc ((self, self') :: steps) (l ++ l') pc''.

(** What the thread's own steps added to a counter of the pool. *)
Fixpoint net (counter : Pool.t -> Z) (steps : list (Pool.t * Pool.t)) : Z :=
  match steps with
  | [] => 0
  | (self, self') :: steps => (counter self' - counter self) + net counter steps
  end.

(** What a thread of [get_socket] standing at [pc] has added to
    [requests], [active_sockets], [_pending] and [waiters] and not yet
    given back.  A thread that has left with an exception has given back
    its request and its active socket when the handler of line 1391 ran,
    and has left with them when the exception passed that handler by: the
    pool raises none of these itself, so such a thread comes from line
    1385 or 1390. *)
Definition held_requests (pc : Pool.gs_pc) : Z :=
  match pc with
  | Pool.L1277 | Pool.L1309 | Pool.L1320 | Pool.L1329 _ | Pool.L1338 _ => 0
  | Pool.Raised e => if except_Exception e then 0 else 1
  | _ => 1
  end.

Definition held_active_sockets (pc : Pool.gs_pc) : Z :=
  match pc with
  | Pool.L1277 | Pool.L1309 | Pool.L1320 | Pool.L1329 _ | Pool.L1338 _
  | Pool.L1354 _ => 0
  | Pool.Raised e => if except_Exception e then 0 else 1
  | Pool.L1391 _ incremented _ _ => if incremented then 1 else 0
  | _ => 1
  end.

Definition held__pending (pc : Pool.gs_pc) : Z :=
  match pc with
  | Pool.L1385 _ | Pool.L1387 _ => 1
  | _ => 0
  end.

Definition held_waiters (pc : Pool.gs_pc) : Z :=
  match pc with
  | Pool.L1338 _ => 1
  | _ => 0
  end.

(** The program points from line 1320 on; the handler of line 1391 is
    entered only with an exception that it catches. *)
Definition past_entry (pc : Pool.gs_pc) : bool :=
  match pc with
  | Pool.L1277 | Pool.L1309 => false
  | Pool.L1391 _ _ _ e => except_Exception e
  | _ => true
  end.

(** ** All threads of a pool *)
Inductive Thread :=
| in_get_socket (all_credentials : list Cred) (pc : Pool.gs_pc)
| in_return_socket (pc : Pool.rs_pc)
| in_remove_stale_sockets (reference_generation : Z)
    (all_credentials : list Cred) (pc : Pool.ms_pc).

Definition thread_step (env : Env) (self : Pool.t) (th : Thread)
  : Pool.t * Thread * list Effect :=
  match th with
  | in_get_socket all_credentials pc =>
      let '(self, pc, l) := Pool.get_socket_step all_credentials env self pc in
      (self, in_get_socket all_credentials pc, l)
  | in_return_socket pc =>
      let '(self, pc, l) := Pool.return_socket_step env self pc in
      (self, in_return_socket pc, l)
  | in_remove_stale_sockets reference_generation all_credentials pc =>
      let '(self, pc, l) :=
        Pool.remove_stale_sockets_step reference_generation all_credentials
          env self pc in
      (self, in_remove_stale_sockets reference_generation all_credentials pc,
       l)
  end.

(** What happens next to the pool: a caller runs one of the short methods,
    a caller enters one of the long ones, or a thread inside a long one
    takes its next atomic step. *)
Inductive Action :=
| call_ready
| call_reset
| call_reset_without_pause
| call_close
| call_update_is_writable (is_writable : option bool)
| enter_get_socket (all_credentials : list Cred)
| enter_return_socket (sock_info : SocketInfo.t)
| enter_remove_stale_sockets (reference_generation : Z)
    (all_credentials : list Cred)
| schedule (i : nat).

Record System := {
  pool : Pool.t;
  threads : list Thread;
  trace : list Effect
}.

Fixpoint replace_nth {A : Type} (i : nat) (x : A) (l : list A) : list A :=
  match l, i with
  | [], _ => []
  | _ :: l, O => x :: l
  | y :: l, S i => y :: replace_nth i x l
  end.

Definition system_step (env : Env) (a : Action) (s : System) : System :=
  match a with
  | call_ready =>
      let '(self, l) := Pool.ready (pool s) in
      {| pool := self; threads := threads s; trace := trace s ++ l |}
  | call_reset =>
      let '(self, _, l) := Pool.reset (pool s) env in
      {| pool := self; threads := threads s; trace := trace s ++ l |}
  | call_reset_without_pause =>
      let '(self, _, l) := Pool.reset_without_pause (pool s) env in
      {| pool := self; threads := threads s; trace := trace s ++ l |}
  | call_close =>
      let '(self, _, l) := Pool.close (pool s) env in
      {| pool := self; threads := threads s; trace := trace s ++ l |}
  | call_update_is_writable is_writable =>
      {| pool := Pool.update_is_writable (pool s) is_writable;
         threads := threads s; trace := trace s |}
  | enter_get_socket all_credentials =>
      {| pool := pool s;
         threads := threads s ++ [in_get_socket all_credentials Pool.L1277];
         trace := trace s |}
  | enter_return_socket sock_info =>
      {| pool := pool s;
         threads := threads s ++ [in_return_socket (Pool.R1414 sock_info)];
         trace := trace s |}
  | enter_remove_stale_sockets reference_generation all_credentials =>
      {| pool := pool s;
         threads :=
           threads s ++
           [in_remove_stale_sockets reference_generation all_credentials
              Pool.M1166];
         trace := trace s |}
  | schedule i =>
      match nth_error (threads s) i with
      | Some th =>
          let '(self, th, l) := thread_step env (pool s) th in
          {| pool := self; threads := replace_nth i th (threads s);
             trace := trace s ++ l |}
      | None => s
      end
  end.

Fixpoint system_run (script : list (Env * Action)) (s : System) : System :=
  match script with
  | [] => s
  | (env, a) :: script => system_run script (system_step env a s)
  end.

(** A pool just constructed, no thread inside. *)
Definition start (options : PoolOptions.t) (handshake : bool) (env : Env)
  : System :=
  let '(self, l) := Pool.__init__ options handshake env in
  {| pool := self; threads := []; trace := l |}.

(** ** The perishability test in the order the specification gives

    Section 4.5 of the specification: idle time first (IDLE), generation
    second (STALE), the liveness probe last (ERROR). *)
Definition _perished_in_specified_order (self : Pool.t)
    (sock_info : SocketInfo.t) (env : Env)
  : bool * SocketInfo.t * list Effect :=
  let idle_time_seconds :=
    SocketInfo.idle_time_seconds sock_info (monotonic env) in
  let idle :=
    match PoolOptions.max_idle_time_seconds (Pool.opts self) with
    | Some max_idle => idle_time_seconds >? max_idle
    | None => false
    end in
  if idle then
    let '(sock_info, l) :=
      SocketInfo.close_socket sock_info (Some ConnectionClosedReason.IDLE) in
    (true, sock_info, l)
  else if negb (SocketInfo.generation sock_info =? Pool.generation self) then
    let '(sock_info, l) :=
      SocketInfo.close_socket sock_info (Some ConnectionClosedReason.STALE) in
    (true, sock_info, l)
  else
    let check :=
      match Pool._check_interval_seconds self with
      | Some interval => (0 =? interval) || (idle_time_seconds >? interval)
      | None => false
      end in
    if check then
      if socket_closed env then
        let '(sock_info', l) :=
          SocketInfo.close_socket sock_info
            (Some ConnectionClosedReason.ERROR) in
        (true, sock_info',
         socket_checker_probe (SocketInfo.sock sock_info) :: l)
      else (false, sock_info,
            [socket_checker_probe (SocketInfo.sock sock_info)])
    else (false, sock_info, []).

(** ** Concrete values for the examples *)

Definition an_env : Env :=
  {| getpid := 7; monotonic := 5000; signalled := false;
     socket_closed := true; _configured_socket := inl 3;
     ismaster_reply :=
       inl {| im_is_writable := true; im_max_bson_size := Some 16777216 |};
     authenticate := fun _ => None; MAX_BSON_SIZE := 16777216 |}.

(** A pool of one connection at most, with listeners, that pauses. *)
Definition some_options : PoolOptions.t :=
  PoolOptions.mk (Some 1) 0 None (Some 100) None 2 true (Some true).

Definition a_pool : Pool.t := fst (Pool.__init__ some_options true an_env).

(** A connection of generation 0, checked in at time 0. *)
Definition a_sock : SocketInfo.t :=
  SocketInfo.mk 3 1 [] false 0 (Some true) (Some 16777216) true 0 true None.

(** [a_pool] made ready, then reset once and made ready again: its
    generation is 1. *)
Definition a_reset_pool : Pool.t :=
  fst (Pool.ready (fst (fst (Pool.reset (fst (Pool.ready a_pool)) an_env)))).

(** [a_pool] made ready, one checkout run to its end, and the connection
    it returned. *)
Definition a_checkout : Pool.t * Pool.gs_pc * list Effect :=
  get_socket_run [] (repeat an_env 10) (fst (Pool.ready a_pool)) Pool.L1277.

Definition a_busy_pool : Pool.t := fst (fst a_checkout).

Definition a_fresh_sock : SocketInfo.t :=
  match snd (fst a_checkout) with
  | Pool.Returned sock_info => sock_info
  | _ => a_sock
  end.

(** The same pool after that connection was checked in. *)
Definition an_idle_pool : Pool.t :=
  fst (fst (Pool.return_socket a_busy_pool a_fresh_sock an_env)).

(** An environment in which the dialer fails. *)
Definition a_failing_env : Env :=
  {| getpid := 7; monotonic := 5000; signalled := false;
     socket_closed := false;
     _configured_socket :=
       inr {| err_class := OSError; err_str := "Connection refused" |};
     ismaster_reply :=
       inl {| im_is_writable := true; im_max_bson_size := Some 16777216 |};
     authenticate := fun _ => None; MAX_BSON_SIZE := 16777216 |}.

(** An environment in which the dial is interrupted from the keyboard. *)
Definition an_interrupted_env : Env :=
  {| getpid := 7; monotonic := 5000; signalled := false;
     socket_closed := false;
     _configured_socket :=
       inr {| err_class := KeyboardInterrupt; err_str := "" |};
     ismaster_reply :=
       inl {| im_is_writable := true; im_max_bson_size := Some 16777216 |};
     authenticate := fun _ => None; MAX_BSON_SIZE := 16777216 |}.


(** A pool is constructed and made ready, one caller enters [get_socket]
    and runs up to the dial. *)
Definition a_dialing_script : list (Env * Action) :=
  [(an_env, call_ready); (an_env, enter_get_socket [])]
  ++ repeat (an_env, schedule 0%nat) 6.

(** The default options of [PoolOptions.__init__]: no listeners. *)
Definition default_options : PoolOptions.t :=
  PoolOptions.mk (Some 100) 0 None None None 2 true None.

Definition a_quiet_pool : Pool.t :=
  fst (Pool.__init__ default_options true an_env).

(** The same answers as [an_env], in a child process. *)
Definition a_forked_env : Env :=
  {| getpid := 8; monotonic := 5000; signalled := false;
     socket_closed := true; _configured_socket := inl 3;
     ismaster_reply :=
       inl {| im_is_writable := true; im_max_bson_size := Some 16777216 |};
     authenticate := fun _ => None; MAX_BSON_SIZE := 16777216 |}.

(** Options asking for more idle connections than the pool may hold, and
    a run in which one checkout holds the only request when maintenance
    passes its own gate. *)
Definition oversized_min_options : PoolOptions.t :=
  PoolOptions.mk (Some 1) 5 None None None 2 false (Some true).

Definition a_maintenance_script : list (Env * Action) :=
  [(an_env, enter_get_socket [])]
  ++ repeat (an_env, schedule 0%nat) 10
  ++ [(an_env, enter_remove_stale_sockets 0 [])]
  ++ repeat (an_env, schedule 1%nat) 2.

(** ** Vocabulary of the statements *)

(** [l] is what closing the connections [sockets] with [reason] does: only
    socket closes and ConnectionClosed events carrying [reason], and for
    every connection that was open its socket close and, when it publishes
    events, its ConnectionClosed event. *)
Definition closes_each (sockets : list SocketInfo.t)
    (reason : ConnectionClosedReason.t) (l : list Effect) : Prop :=
  Forall (fun e => (exists sock, e = sock_close sock)
                   \/ (exists conn_id,
                         e = publish_connection_closed conn_id reason)) l
  /\ forall sock_info, In sock_info sockets ->
       SocketInfo.closed sock_info = false ->
       In (sock_close (SocketInfo.sock sock_info)) l
       /\ (SocketInfo.enabled_for_cmap sock_info = true ->
           In (publish_connection_closed (SocketInfo.id sock_info) reason) l).

(** The pool is of the given options and finite size, and has admitted
    no more requests than that size. *)
Definition requests_within (options : PoolOptions.t) (m : Z)
    (self : Pool.t) : Prop :=
  Pool.opts self = options
  /\ Pool.max_pool_size self = Some m
  /\ Pool.requests self <= m.

(** A step leaves the options and the size alone, and adds at most one
    request, through one of the two gates. *)
Definition admits (self self' : Pool.t) : Prop :=
  Pool.opts self' = Pool.opts self
  /\ Pool.max_pool_size self' = Pool.max_pool_size self
  /\ (Pool.requests self' <= Pool.requests self
      \/ (Pool.requests self' = Pool.requests self + 1
          /\ (lt_bound (Pool.requests self) (Pool.max_pool_size self) = true
              \/ Pool.requests self
                 < PoolOptions.min_pool_size (Pool.opts self)))).

(** [l] only wakes the threads waiting on the condition variables. *)
Definition wakes (l : list Effect) : Prop :=
  Forall (fun e => exists c, e = notify_all c) l.

(** The counters of a pool after the last block of [return_socket]. *)
Definition checked_in_counters (self : Pool.t) : Pool.t :=
  Pool.set_operation_count
    (Pool.set_active_sockets
       (Pool.set_requests self (Pool.requests self - 1))
       (Pool.active_sockets self - 1))
    (Pool.operation_count self - 1).

(** What a thread of [get_socket] standing at [pc] has added to
    [operation_count]. *)
Definition held_operation_count (pc : Pool.gs_pc) : Z :=
  match pc with
  | Pool.L1277 | Pool.L1309 | Pool.L1320 => 0
  | _ => 1
  end.

(** One thread of [remove_stale_sockets] among others, as [gs_exec]. *)
Inductive ms_exec (reference_generation : Z) (all_credentials : list Cred)
  : Pool.ms_pc -> list (Pool.t * Pool.t) -> list Effect -> Pool.ms_pc -> Prop :=
| ms_exec_done pc : ms_exec reference_generation all_credentials pc [] [] pc
| ms_exec_step env self self' pc pc' l steps l' pc'' :
    Pool.remove_stale_sockets_step reference_generation all_credentials env
      self pc = (self', pc', l) ->
    ms_exec reference_generation all_credentials pc' steps l' pc'' ->
    ms_exec reference_generation all_credentials pc ((self, self') :: steps)
      (l ++ l') pc''.

(** What a thread of [remove_stale_sockets] standing at [pc] has added to
    [requests] and to [_pending] and not yet given back. *)
Definition ms_held_requests (pc : Pool.ms_pc) : Z :=
  match pc with
  | Pool.M1166 | Pool.M1177 | Pool.M_returned | Pool.M_raised _ => 0
  | _ => 1
  end.

Definition ms_held__pending (pc : Pool.ms_pc) : Z :=
  match pc with
  | Pool.M1194 | Pool.M1195 _ => 1
  | Pool.M1203 incremented _ => if incremented then 1 else 0
  | _ => 0
  end.

(** A step leaves the two throttles alone, lets a thread into a wait or a
    creation only through its gate, and never lowers the generation or the
    next connection id. *)
Definition advances (self self' : Pool.t) : Prop :=
  Pool._max_connecting self' = Pool._max_connecting self
  /\ Pool.max_waiters self' = Pool.max_waiters self
  /\ (Pool._pending self' <= Pool._pending self
      \/ (Pool._pending self' = Pool._pending self + 1
          /\ Pool._pending self < Pool._max_connecting self))
  /\ (Pool.waiters self' <= Pool.waiters self
      \/ (Pool.waiters self' = Pool.waiters self + 1
          /\ ge_bound (Pool.waiters self) (Pool.max_waiters self) = false))
  /\ Pool.generation self <= Pool.generation self'
  /\ Pool.next_connection_id self <= Pool.next_connection_id self'.

(** [close_socket] called on one connection once for each reason of the
    list, and what all the calls did, in order. *)
Fixpoint close_socket_each (sock_info : SocketInfo.t)
    (reasons : list (option ConnectionClosedReason.t))
  : SocketInfo.t * list Effect :=
  match reasons with
  | [] => (sock_info, [])
  | reason :: reasons =>
      let '(sock_info, l) := SocketInfo.close_socket sock_info reason in
      let '(sock_info, l') := close_socket_each sock_info reasons in
      (sock_info, l ++ l')
  end.

(** An exception after which [_create_connection] leaves the socket it
    has just created open: one of line 914 or 943, or one of line 916 or
    lines 945-951 that is no [socket.error]. *)
Definition leaves_socket_open (net : Dial.Net) (a : Dial.Attempt)
    (e : PyError) : Prop :=
  a = Dial.set_non_inheritable_raises e
  \/ (a = Dial.connect_raises e
      /\ Dial.is_socket_error net (err_class e) = false).

(** The connect to the address fails with a [socket.error]. *)
Definition socket_error_at (net : Dial.Net) (res : Dial.AddrInfo) : Prop :=
  exists e,
    Dial.attempt net res = Dial.connect_raises e
    /\ Dial.is_socket_error net (err_class e) = true.

(** [a] is what happens at the UNIX socket [host], or at one of the
    addresses that getaddrinfo gives for [host]. *)
Definition attempted (net : Dial.Net) (host : string) (a : Dial.Attempt)
  : Prop :=
  a = Dial.unix_attempt net host
  \/ exists family addresses res,
       Dial.getaddrinfo net host family = inl addresses
       /\ In res addresses
       /\ a = Dial.attempt net res.

(** [needle in hay], said without the search. *)
Definition substring (needle hay : string) : Prop :=
  exists before after, hay = (before ++ needle ++ after)%string.

(** The deque is empty or its rightmost connection has been idle for no
    longer than [max_idle]. *)
Definition rightmost_fresh (sockets : list SocketInfo.t) (now max_idle : Time)
  : Prop :=
  sockets = []
  \/ exists left sock_info,
       sockets = left ++ [sock_info]
       /\ SocketInfo.idle_time_seconds sock_info now <= max_idle.

(** A network to dial into: two addresses, the first refuses, and a TLS
    handshake that times out. *)
Definition a_net : Dial.Net :=
  {| Dial.has_AF_UNIX := true; Dial.has_ipv6 := true;
     Dial.SSLError_is_OSError := true;
     Dial.getaddrinfo := fun _ _ =>
       inl [ {| Dial.af := Dial.AF_UNSPEC; Dial.sa := "::1" |};
             {| Dial.af := Dial.AF_INET; Dial.sa := "127.0.0.1" |} ];
     Dial.attempt := fun res =>
       if String.eqb (Dial.sa res) "::1"
       then Dial.connect_raises
              {| err_class := OSError; err_str := "Connection refused" |}
       else Dial.connects;
     Dial.unix_attempt := fun _ => Dial.connects;
     Dial._HAVE_SNI := true; Dial._IPADDR_SAFE := false;
     Dial.is_ip_address := fun _ => false;
     Dial.wrap_socket :=
       Dial.raises {| err_class := _SSLError;
                      err_str := "handshake timed out" |};
     Dial.match_hostname := Dial.passes;
     Dial.settimeout := fun _ => None |}.

(** A network on which the connect timeout is refused: [settimeout] of
    line 946 raises ValueError. *)
Definition a_strict_net : Dial.Net :=
  {| Dial.has_AF_UNIX := true; Dial.has_ipv6 := true;
     Dial.SSLError_is_OSError := true;
     Dial.getaddrinfo := fun _ _ =>
       inl [ {| Dial.af := Dial.AF_UNSPEC; Dial.sa := "::1" |};
             {| Dial.af := Dial.AF_INET; Dial.sa := "127.0.0.1" |} ];
     Dial.attempt := fun _ =>
       Dial.connect_raises
         {| err_class := OtherException;
            err_str := "Timeout value out of range" |};
     Dial.unix_attempt := fun _ => Dial.connects;
     Dial._HAVE_SNI := true; Dial._IPADDR_SAFE := false;
     Dial.is_ip_address := fun _ => false;
     Dial.wrap_socket := Dial.passes;
     Dial.match_hostname := Dial.passes;
     Dial.settimeout := fun _ => None |}.

(** A network that connects at once and on which [settimeout] refuses a
    negative timeout, as Python's sockets do; and options asking for
    one. *)
Definition a_refusing_net : Dial.Net :=
  {| Dial.has_AF_UNIX := true; Dial.has_ipv6 := true;
     Dial.SSLError_is_OSError := true;
     Dial.getaddrinfo := fun _ _ =>
       inl [ {| Dial.af := Dial.AF_UNSPEC; Dial.sa := "::1" |} ];
     Dial.attempt := fun _ => Dial.connects;
     Dial.unix_attempt := fun _ => Dial.connects;
     Dial._HAVE_SNI := true; Dial._IPADDR_SAFE := false;
     Dial.is_ip_address := fun _ => false;
     Dial.wrap_socket := Dial.passes;
     Dial.match_hostname := Dial.passes;
     Dial.settimeout := fun timeout =>
       match timeout with
       | Some t =>
           if t <? 0
           then Some {| err_class := OtherException;
                        err_str := "Timeout value out of range" |}
           else None
       | None => None
       end |}.

Definition plain_options : Dial.Options.t :=
  Dial.Options.mk (Some (-1000)) None true.

Definition tls_options : Dial.Options.t :=
  Dial.Options.mk None
    (Some {| Dial.verify_mode := true; Dial.check_hostname := false |}) true.

(** A pool that bounds its wait queue, and a run in which one checkout
    holds the only request while a second one waits. *)
Definition waiting_options : PoolOptions.t :=
  PoolOptions.mk (Some 1) 0 None (Some 100) (Some 2) 2 false (Some true).

Definition a_waiting_script : list (Env * Action) :=
  [(an_env, enter_get_socket []); (an_env, enter_get_socket [])]
  ++ repeat (an_env, schedule 0%nat) 10
  ++ repeat (an_env, schedule 1%nat) 4.

(** The thread of [remove_stale_sockets] taking one atomic step per
    element of [envs], nothing else touching the pool in between, and the
    pool before and after each of these steps. *)
Fixpoint remove_stale_sockets_run (reference_generation : Z)
    (all_credentials : list Cred) (envs : list Env) (self : Pool.t)
    (pc : Pool.ms_pc) : Pool.t * Pool.ms_pc * list Effect :=
  match envs with
  | [] => (self, pc, [])
  | env :: envs =>
      let '(self, pc, l) :=
        Pool.remove_stale_sockets_step reference_generation all_credentials
          env self pc in
      let '(self, pc, l') :=
        remove_stale_sockets_run reference_generation all_credentials envs
          self pc in
      (self, pc, l ++ l')
  end.

Fixpoint remove_stale_sockets_steps (reference_generation : Z)
    (all_credentials : list Cred) (envs : list Env) (self : Pool.t)
    (pc : Pool.ms_pc) : list (Pool.t * Pool.t) :=
  match envs with
  | [] => []
  | env :: envs =>
      let '(self', pc, _) :=
        Pool.remove_stale_sockets_step reference_generation all_credentials
          env self pc in
      (self, self')
      :: remove_stale_sockets_steps reference_generation all_credentials envs
           self' pc
  end.

(** A pool that keeps one connection warm and prunes after 1 s, ready. *)
Definition warm_options : PoolOptions.t :=
  PoolOptions.mk (Some 2) 1 (Some 1000) None None 2 false (Some true).

Definition a_warm_pool : Pool.t :=
  fst (Pool.__init__ warm_options true an_env).

(** [a_warm_pool] with two idle connections: the left one checked in
    half a second ago, the right one five seconds ago. *)
Definition a_stale_tail_pool : Pool.t :=
  Pool.set_sockets a_warm_pool
    [SocketInfo.mk 4 2 [] false 4500 (Some true) (Some 16777216) true 0 true
       None;
     a_sock].

(** * Properties *)

Unset Implicit Arguments.

Ltac break_match :=
  match goal with
  | |- context [match ?x with _ => _ end] => destruct x eqn:?
  | H : context [match ?x with _ => _ end] |- _ => destruct x eqn:?
  end.

Lemma PoolState_eqb_eq a b : PoolState_eqb a b = true <-> a = b.
Proof. destruct a, b; simpl; split; congruence. Qed.

(** *** The perishability test *)

(** C1, as the specification orders the checks, fails: a connection that is
    not idle, whose generation is outdated and whose socket the probe finds
    closed is closed with reason ERROR by the code, where the specified
    order closes it with reason STALE without probing. *)
Lemma perished_probes_before_generation :
  Pool._perished a_reset_pool a_sock an_env
  = (true, SocketInfo.set_closed a_sock true,
     [socket_checker_probe 3; sock_close 3;
      publish_connection_closed 1 ConnectionClosedReason.ERROR])
  /\ Pool._perished a_reset_pool a_sock an_env
     <> _perished_in_specified_order a_reset_pool a_sock an_env.
Proof. split; [reflexivity | vm_compute; discriminate]. Qed.

(** C1 (amended): the perishability test applies its checks in the order
    idle time (IDLE), then the liveness probe when it is due (ERROR), then
    the generation (STALE); a check is reached only when the ones before it
    pass, and the connection is returned unchanged when all three pass. *)
Theorem perished_check_order (self : Pool.t) (sock_info : SocketInfo.t)
    (env : Env) :
  let idle_time := SocketInfo.idle_time_seconds sock_info (monotonic env) in
  let idle :=
    match PoolOptions.max_idle_time_seconds (Pool.opts self) with
    | Some max_idle => idle_time >? max_idle
    | None => false
    end in
  let probe_due :=
    match Pool._check_interval_seconds self with
    | Some interval => (0 =? interval) || (idle_time >? interval)
    | None => false
    end in
  let stale :=
    negb (SocketInfo.generation sock_info =? Pool.generation self) in
  let closing reason := SocketInfo.close_socket sock_info (Some reason) in
  let probe := socket_checker_probe (SocketInfo.sock sock_info) in
  (idle = true ->
   Pool._perished self sock_info env
   = (true, fst (closing ConnectionClosedReason.IDLE),
      snd (closing ConnectionClosedReason.IDLE)))
  /\ (idle = false -> probe_due = true -> socket_closed env = true ->
      Pool._perished self sock_info env
      = (true, fst (closing ConnectionClosedReason.ERROR),
         probe :: snd (closing ConnectionClosedReason.ERROR)))
  /\ (idle = false -> probe_due && socket_closed env = false ->
      stale = true ->
      Pool._perished self sock_info env
      = (true, fst (closing ConnectionClosedReason.STALE),
         (if probe_due then [probe] else [])
         ++ snd (closing ConnectionClosedReason.STALE)))
  /\ (idle = false -> probe_due && socket_closed env = false ->
      stale = false ->
      Pool._perished self sock_info env
      = (false, sock_info, if probe_due then [probe] else [])).
Proof.
  cbv zeta. unfold Pool._perished.
  repeat split; intros.
  - rewrite H. destruct (SocketInfo.close_socket _ _); reflexivity.
  - rewrite H, H0, H1. simpl.
    destruct (SocketInfo.close_socket _ _); reflexivity.
  - rewrite H, H0, H1.
    destruct (SocketInfo.close_socket _ _); reflexivity.
  - rewrite H, H0, H1. reflexivity.
Qed.

Lemma perished_check_order_witness :
  Pool._perished a_reset_pool a_sock an_env
  = (true,
     fst (SocketInfo.close_socket a_sock (Some ConnectionClosedReason.ERROR)),
     socket_checker_probe (SocketInfo.sock a_sock)
     :: snd (SocketInfo.close_socket a_sock
               (Some ConnectionClosedReason.ERROR))).
Proof.
  apply (proj1 (proj2 (perished_check_order a_reset_pool a_sock an_env)));
    reflexivity.
Defined.

(** *** ready *)

(** C9, as stated, fails: a pool constructed with the default options has
    no listeners and starts PAUSED; ready() makes it READY and emits
    nothing. *)
Lemma ready_without_listeners_emits_nothing :
  Pool.state a_quiet_pool = PAUSED
  /\ Pool.enabled_for_cmap a_quiet_pool = false
  /\ Pool.ready a_quiet_pool = (Pool.set_state a_quiet_pool READY, []).
Proof. repeat split; reflexivity. Qed.

(** C9 (amended): ready() is idempotent: on a PAUSED pool it makes the
    state READY and emits PoolReady when the pool is enabled for CMAP
    events (and nothing otherwise); on a READY pool it changes nothing and
    emits nothing; so a second ready() in a row never emits. *)
Theorem ready_is_idempotent (self : Pool.t) :
  (Pool.state self = PAUSED ->
   Pool.ready self
   = (Pool.set_state self READY,
      if Pool.enabled_for_cmap self then [publish_pool_ready] else []))
  /\ (Pool.state self = READY -> Pool.ready self = (self, []))
  /\ Pool.ready (fst (Pool.ready self)) = (fst (Pool.ready self), []).
Proof.
  unfold Pool.ready, Pool.publish.
  repeat split.
  - intros ->. reflexivity.
  - intros Hs. rewrite Hs. simpl. destruct self; simpl in *; subst; reflexivity.
  - destruct (negb (PoolState_eqb (Pool.state self) READY)); reflexivity.
Qed.

Lemma ready_is_idempotent_witness :
  Pool.ready a_pool = (Pool.set_state a_pool READY, [publish_pool_ready]).
Proof.
  apply (proj1 (ready_is_idempotent a_pool)). reflexivity.
Defined.

(** *** send_message *)

(** C10: a message whose largest document exceeds the connection's
    max_bson_size raises DocumentTooLarge with nothing written to the
    socket and the connection unchanged; and an open connection comes out
    of send_message closed only when sendall itself was called and
    raised. *)
Theorem send_message_document_too_large (self : SocketInfo.t)
    (message : list Byte.byte) (max_doc_size : Z) (sendall : option PyError) :
  SocketInfo.closed self = false ->
  (forall m, SocketInfo.max_bson_size self = Some m -> max_doc_size > m ->
     SocketInfo.send_message self message max_doc_size sendall
     = (self, [], Raise (DocumentTooLarge max_doc_size m)))
  /\ (forall self' l r,
        SocketInfo.send_message self message max_doc_size sendall
        = (self', l, r) ->
        SocketInfo.closed self' = true ->
        exists error e,
          sendall = Some error /\ r = Raise e
          /\ (forall m, r <> Raise (DocumentTooLarge max_doc_size m))
          /\ hd_error l = Some (sock_sendall (SocketInfo.sock self) message)).
Proof.
  intros Hopen. unfold SocketInfo.send_message. split.
  - intros m -> Hm.
    destruct (max_doc_size >? m) eqn:E; [reflexivity | lia].
  - intros self' l r H Hclosed.
    destruct (match SocketInfo.max_bson_size self with
              | Some m => if max_doc_size >? m then Some m else None
              | None => None
              end).
    + inversion H; subst. congruence.
    + destruct sendall as [error|].
      * unfold SocketInfo._raise_connection_failure in H.
        destruct (SocketInfo.close_socket self _) as [s l0].
        exists error.
        destruct (err_class error) eqn:Ec; inversion H; subst;
          eexists; (split; [reflexivity|]); (split; [reflexivity|]);
          (split; [|reflexivity]); intros m Hm; inversion Hm;
          unfold _raise_connection_failure in *; rewrite Ec in *;
          try discriminate;
          destruct (contains "timed out" (err_str error)); discriminate.
      * inversion H; subst. congruence.
Qed.

Lemma send_message_document_too_large_witness :
  SocketInfo.send_message a_sock [] 16777217 None
  = (a_sock, [], Raise (DocumentTooLarge 16777217 16777216)).
Proof.
  apply (proj1 (send_message_document_too_large a_sock [] 16777217 None
                  eq_refl) 16777216); [reflexivity | lia].
Defined.

(** *** Draining: close and reset *)

Lemma close_socket_closes (sock_info : SocketInfo.t)
    (reason : ConnectionClosedReason.t) :
  SocketInfo.closed sock_info = false ->
  exists l,
    snd (SocketInfo.close_socket sock_info (Some reason))
    = sock_close (SocketInfo.sock sock_info) :: l
    /\ (l = [] \/ l = [publish_connection_closed (SocketInfo.id sock_info)
                         reason])
    /\ (SocketInfo.enabled_for_cmap sock_info = true ->
        l = [publish_connection_closed (SocketInfo.id sock_info) reason])
    /\ SocketInfo.closed (fst (SocketInfo.close_socket sock_info (Some reason)))
       = true.
Proof.
  intros Hopen.
  unfold SocketInfo.close_socket, SocketInfo._close_socket.
  rewrite Hopen.
  destruct sock_info as [sk i au cl lc iw mb cmap g rd cc]; simpl in *.
  destruct cc; simpl; destruct cmap; simpl; eexists;
    repeat split; try reflexivity; auto; discriminate.
Qed.

Lemma close_socket_closed (sock_info : SocketInfo.t)
    (reason : option ConnectionClosedReason.t) :
  SocketInfo.closed sock_info = true ->
  SocketInfo.close_socket sock_info reason = (sock_info, []).
Proof. intros H. unfold SocketInfo.close_socket. rewrite H. reflexivity. Qed.

Lemma close_sockets_closes_each (sockets : list SocketInfo.t)
    (reason : ConnectionClosedReason.t) :
  closes_each sockets reason (snd (Pool.close_sockets sockets reason)).
Proof.
  induction sockets as [|s rest [IHall IHeach]]; simpl.
  - split; [constructor | intros ? []].
  - destruct (SocketInfo.close_socket s (Some reason)) as [s' l] eqn:Es.
    destruct (Pool.close_sockets rest reason) as [rest' l'] eqn:Er.
    simpl in *.
    assert (Hl : Forall (fun e => (exists sock, e = sock_close sock)
                   \/ (exists conn_id,
                         e = publish_connection_closed conn_id reason)) l
                 /\ (SocketInfo.closed s = false ->
                     In (sock_close (SocketInfo.sock s)) l
                     /\ (SocketInfo.enabled_for_cmap s = true ->
                         In (publish_connection_closed (SocketInfo.id s)
                               reason) l))).
    { destruct (SocketInfo.closed s) eqn:Ec.
      - rewrite close_socket_closed in Es by assumption.
        inversion Es; subst. split; [constructor | discriminate].
      - destruct (close_socket_closes s reason Ec) as (l0 & Hl & Hor & Hc & _).
        rewrite Es in Hl. simpl in Hl. subst l. split.
        + constructor; [left; eauto|].
          destruct Hor as [-> | ->]; [constructor|].
          constructor; [right; eauto | constructor].
        + intros _. split; [left; reflexivity|].
          intros Hcmap. rewrite (Hc Hcmap). right; left; reflexivity. }
    destruct Hl as [Hall Hs]. split.
    + apply Forall_app; split; assumption.
    + intros x [-> | Hin] Hopen.
      * destruct (Hs Hopen) as [H1 H2]. split.
        -- apply in_or_app; left; exact H1.
        -- intros Hc. apply in_or_app; left; exact (H2 Hc).
      * destruct (IHeach x Hin Hopen) as [H1 H2]. split.
        -- apply in_or_app; right; exact H1.
        -- intros Hc. apply in_or_app; right; exact (H2 Hc).
Qed.

(** C5: what close() does is, in this order: wake the waiters, close every
    drained connection with reason POOL_CLOSED, emit PoolClosed; what
    reset() (with or without pause) does is: wake the waiters, emit
    PoolCleared, which it does only when the pool was not PAUSED, close
    every snapshotted connection with reason STALE.  In a pool enabled for
    CMAP events that was not closed the events are emitted. *)
Theorem drain_event_order (self : Pool.t) (env : Env) :
  let drained := if Pool.closed self then [] else Pool.sockets self in
  let emits e emitted :=
    (emitted = [] \/ emitted = [e])
    /\ (Pool.closed self = false -> Pool.enabled_for_cmap self = true ->
        emitted = [e]) in
  let clears emitted :=
    (emitted = []
     \/ (emitted = [publish_pool_cleared] /\ Pool.state self <> PAUSED))
    /\ (Pool.closed self = false -> Pool.enabled_for_cmap self = true ->
        Pool.state self <> PAUSED -> emitted = [publish_pool_cleared]) in
  (exists woken closes emitted,
      snd (Pool.close self env) = woken ++ closes ++ emitted
      /\ wakes woken
      /\ closes_each drained ConnectionClosedReason.POOL_CLOSED closes
      /\ emits publish_pool_closed emitted)
  /\ (exists woken emitted closes,
         snd (Pool.reset self env) = woken ++ emitted ++ closes
         /\ wakes woken
         /\ clears emitted
         /\ closes_each drained ConnectionClosedReason.STALE closes)
  /\ (exists woken emitted closes,
         snd (Pool.reset_without_pause self env) = woken ++ emitted ++ closes
         /\ wakes woken
         /\ clears emitted
         /\ closes_each drained ConnectionClosedReason.STALE closes).
Proof.
  cbv zeta.
  unfold Pool.close, Pool.reset, Pool.reset_without_pause, Pool._reset.
  destruct (Pool.closed self) eqn:Hclosed.
  { assert (Hnone : forall reason, closes_each [] reason [])
      by (intros reason; split; [constructor | intros ? []]).
    repeat split; exists [], [], []; simpl;
      (split; [reflexivity|]); (split; [constructor|]).
    - split; [apply Hnone|]. split; [left; reflexivity | discriminate].
    - split; [|apply Hnone]. split; [left; reflexivity | discriminate].
    - split; [|apply Hnone]. split; [left; reflexivity | discriminate]. }
  assert (Hw : wakes [notify_all _max_connecting_cond; notify_all size_cond])
    by (repeat constructor; eexists; reflexivity).
  repeat split.
  - exists [notify_all _max_connecting_cond; notify_all size_cond],
      (snd (Pool.close_sockets (Pool.sockets self)
              ConnectionClosedReason.POOL_CLOSED)),
      (if Pool.enabled_for_cmap self then [publish_pool_closed] else []).
    split; [|split; [exact Hw|split; [apply close_sockets_closes_each|]]].
    + destruct (PoolOptions.pause_enabled (Pool.opts self)); simpl;
        destruct (Pool.pid self =? getpid env); simpl;
        destruct (Pool.close_sockets _ _); simpl;
        unfold Pool.publish; simpl; reflexivity.
    + split; [destruct (Pool.enabled_for_cmap self); auto|].
      intros _ ->. reflexivity.
  - exists [notify_all _max_connecting_cond; notify_all size_cond],
      (if PoolState_eqb (Pool.state self) PAUSED then []
       else if Pool.enabled_for_cmap self then [publish_pool_cleared]
            else []),
      (snd (Pool.close_sockets (Pool.sockets self)
              ConnectionClosedReason.STALE)).
    split; [|split; [exact Hw|split; [|apply close_sockets_closes_each]]].
    + destruct (PoolOptions.pause_enabled (Pool.opts self)); simpl;
        destruct (Pool.pid self =? getpid env); simpl;
        destruct (Pool.close_sockets _ _); simpl;
        unfold Pool.publish; simpl;
        destruct (Pool.state self); reflexivity.
    + split.
      * destruct (Pool.state self); simpl; auto;
          destruct (Pool.enabled_for_cmap self); auto;
          right; (split; [reflexivity | discriminate]).
      * intros _ -> Hs. destruct (Pool.state self); simpl; congruence.
  - exists [notify_all _max_connecting_cond; notify_all size_cond],
      (if PoolState_eqb (Pool.state self) PAUSED then []
       else if Pool.enabled_for_cmap self then [publish_pool_cleared]
            else []),
      (snd (Pool.close_sockets (Pool.sockets self)
              ConnectionClosedReason.STALE)).
    split; [|split; [exact Hw|split; [|apply close_sockets_closes_each]]].
    + destruct (PoolOptions.pause_enabled (Pool.opts self)); simpl;
        destruct (Pool.pid self =? getpid env); simpl;
        destruct (Pool.close_sockets _ _); simpl;
        unfold Pool.publish; simpl;
        destruct (Pool.state self); reflexivity.
    + split.
      * destruct (Pool.state self); simpl; auto;
          destruct (Pool.enabled_for_cmap self); auto;
          right; (split; [reflexivity | discriminate]).
      * intros _ -> Hs. destruct (Pool.state self); simpl; congruence.
Qed.

Lemma drain_event_order_witness :
  exists woken closes emitted,
    snd (Pool.close an_idle_pool an_env) = woken ++ closes ++ emitted
    /\ wakes woken
    /\ closes_each
         (if Pool.closed an_idle_pool then [] else Pool.sockets an_idle_pool)
         ConnectionClosedReason.POOL_CLOSED closes
    /\ (emitted = [] \/ emitted = [publish_pool_closed])
    /\ (Pool.closed an_idle_pool = false ->
        Pool.enabled_for_cmap an_idle_pool = true ->
        emitted = [publish_pool_closed]).
Proof.
  exact (proj1 (drain_event_order an_idle_pool an_env)).
Defined.

(** On [an_idle_pool], which holds one idle connection, close() is the two
    wake-ups, the close of the connection with its event, PoolClosed. *)
Lemma close_of_an_idle_pool :
  snd (Pool.close an_idle_pool an_env)
  = [notify_all _max_connecting_cond; notify_all size_cond;
     sock_close 3;
     publish_connection_closed 1 ConnectionClosedReason.POOL_CLOSED;
     publish_pool_closed].
Proof. reflexivity. Qed.

(** *** Checkin *)

(** C6, as stated, fails: in a child process (the pool's pid is not the
    current one) an open connection of the pool's generation checked into a
    READY pool is neither closed nor pushed on the deque: the pool is reset
    instead and the connection is dropped as it is. *)
Lemma return_socket_after_fork_drops_connection :
  let '(self', sock_info', l) :=
    Pool.return_socket a_busy_pool a_fresh_sock a_forked_env in
  Pool.closed a_busy_pool = false
  /\ SocketInfo.closed a_fresh_sock = false
  /\ SocketInfo.generation a_fresh_sock = Pool.generation a_busy_pool
  /\ Pool.pid a_busy_pool <> getpid a_forked_env
  /\ Pool.sockets self' = []
  /\ sock_info' = a_fresh_sock
  /\ Pool.state self' = PAUSED
  /\ ~ In (notify _max_connecting_cond) l.
Proof.
  vm_compute. repeat split; try reflexivity; try discriminate.
  intros H. repeat (destruct H as [H | H]; [discriminate|]). exact H.
Qed.

(** C6 (amended): checking an open connection into a pool that is not
    closed, in the process that owns the pool (the pool's pid is the
    current one): a connection of another generation is closed with reason
    STALE; otherwise it is stamped with the time of the checkin and the
    pool's is_writable, pushed on the left of the deque, and one thread
    waiting on the creation condition is notified; either way requests,
    active_sockets and operation_count then drop by one and one thread
    waiting on the admission condition is notified. *)
Theorem return_socket_checks_in (self : Pool.t) (sock_info : SocketInfo.t)
    (env : Env) :
  Pool.pid self = getpid env ->
  Pool.closed self = false ->
  SocketInfo.closed sock_info = false ->
  let checked_in :=
    Pool.publish self
      (publish_connection_checked_in (SocketInfo.id sock_info)) in
  let closing :=
    SocketInfo.close_socket sock_info (Some ConnectionClosedReason.STALE) in
  let stamped :=
    SocketInfo.set_is_writable
      (SocketInfo.set_last_checkin_time sock_info (monotonic env))
      (Pool.is_writable self) in
  (SocketInfo.generation sock_info <> Pool.generation self ->
   Pool.return_socket self sock_info env
   = (checked_in_counters self, fst closing,
      checked_in ++ snd closing ++ [notify size_cond])
   /\ SocketInfo.closed (fst closing) = true)
  /\ (SocketInfo.generation sock_info = Pool.generation self ->
      Pool.return_socket self sock_info env
      = (checked_in_counters
           (Pool.set_sockets self (stamped :: Pool.sockets self)),
         stamped,
         checked_in ++ [notify _max_connecting_cond; notify size_cond])).
Proof.
  intros Hpid Hopen Hsock. cbv zeta.
  unfold Pool.return_socket, Pool.return_socket_step.
  rewrite Hpid, Z.eqb_refl, Hopen, Hsock. simpl negb. cbv iota.
  split.
  - intros Hgen. apply Z.eqb_neq in Hgen. rewrite Hgen. simpl negb. cbv iota.
    destruct (close_socket_closes sock_info ConnectionClosedReason.STALE Hsock)
      as (_ & _ & _ & _ & Hc).
    destruct (SocketInfo.close_socket sock_info _) as [s l]. simpl in *.
    split; [|exact Hc].
    unfold checked_in_counters. rewrite <- app_assoc. reflexivity.
  - intros Hgen. rewrite Hgen, Z.eqb_refl. simpl negb. cbv iota.
    unfold checked_in_counters, SocketInfo.update_is_writable,
      SocketInfo.update_last_checkin_time.
    simpl. rewrite <- app_assoc. reflexivity.
Qed.

Lemma return_socket_checks_in_witness :
  Pool.return_socket a_busy_pool a_fresh_sock an_env
  = (checked_in_counters
       (Pool.set_sockets a_busy_pool
          (SocketInfo.set_is_writable
             (SocketInfo.set_last_checkin_time a_fresh_sock (monotonic an_env))
             (Pool.is_writable a_busy_pool) :: Pool.sockets a_busy_pool)),
     SocketInfo.set_is_writable
       (SocketInfo.set_last_checkin_time a_fresh_sock (monotonic an_env))
       (Pool.is_writable a_busy_pool),
     Pool.publish a_busy_pool
       (publish_connection_checked_in (SocketInfo.id a_fresh_sock))
     ++ [notify _max_connecting_cond; notify size_cond]).
Proof.
  apply (proj2 (return_socket_checks_in a_busy_pool a_fresh_sock an_env
                  eq_refl eq_refl eq_refl)).
  reflexivity.
Defined.

(** *** Checkout from a closed pool *)

Lemma closed_state (self : Pool.t) :
  Pool.state self = CLOSED -> Pool.closed self = true.
Proof. intros H. unfold Pool.closed. rewrite H. reflexivity. Qed.

Lemma reset_closed (self : Pool.t) (close pause : bool) (env : Env) :
  Pool.closed self = true ->
  Pool._reset self close pause env = (self, [], []).
Proof. intros H. unfold Pool._reset. rewrite H. reflexivity. Qed.

Lemma close_is_closed (self : Pool.t) (env : Env) :
  Pool.state (fst (fst (Pool.close self env))) = CLOSED.
Proof.
  unfold Pool.close, Pool._reset.
  destruct (Pool.closed self) eqn:Ec.
  - simpl. apply PoolState_eqb_eq. exact Ec.
  - destruct (PoolOptions.pause_enabled (Pool.opts self)); simpl;
      destruct (Pool.pid self =? getpid env); simpl;
      destruct (Pool.close_sockets _ _); reflexivity.
Qed.

Lemma get_socket_run_raised (all_credentials : list Cred) (envs : list Env)
    (self : Pool.t) (e : Exn) :
  get_socket_run all_credentials envs self (Pool.Raised e)
  = (self, Pool.Raised e, []).
Proof.
  induction envs as [|env envs IH]; simpl; [reflexivity|].
  rewrite IH. reflexivity.
Qed.

Lemma checkout_of_closed_pool (all_credentials : list Cred)
    (envs : list Env) (self : Pool.t) :
  Pool.state self = CLOSED ->
  (2 <= List.length envs)%nat ->
  get_socket_run all_credentials envs self Pool.L1277
  = (self, Pool.Raised _PoolClosedError,
     Pool.publish self publish_connection_check_out_started
     ++ Pool.publish self
          (publish_connection_check_out_failed
             ConnectionCheckOutFailedReason.POOL_CLOSED)).
Proof.
  intros Hs Hlen.
  destruct envs as [|env1 [|env2 envs]]; simpl in Hlen; try lia.
  pose proof (closed_state self Hs) as Hc.
  simpl. unfold Pool.reset.
  rewrite (reset_closed self false true env2 Hc).
  destruct (negb (Pool.pid self =? getpid env2)); rewrite Hc;
    rewrite get_socket_run_raised; simpl; rewrite app_nil_r; reflexivity.
Qed.

(** C7, as stated, fails: a pool constructed with the default options has
    no listeners; once closed, a checkout raises the pool-closed error and
    emits nothing. *)
Lemma checkout_of_closed_pool_without_listeners :
  let closed_pool := fst (fst (Pool.close a_quiet_pool an_env)) in
  Pool.state closed_pool = CLOSED
  /\ get_socket_run [] [an_env; an_env] closed_pool Pool.L1277
     = (closed_pool, Pool.Raised _PoolClosedError, []).
Proof. split; reflexivity. Qed.

(** C7 (amended): a checkout attempted on a CLOSED pool raises the
    pool-closed error and leaves the pool as it was, and emits CheckOutFailed
    with reason POOL_CLOSED when the pool is enabled for CMAP events; so
    right after close() every checkout of a series fails in this way, and
    no ConnectionCreated event is emitted. *)
Theorem checkout_after_close_fails (self : Pool.t) (env : Env)
    (attempts : list (list Cred * list Env)) :
  Forall (fun attempt => (2 <= List.length (snd attempt))%nat) attempts ->
  let closed_pool := fst (fst (Pool.close self env)) in
  let failed :=
    publish_connection_check_out_failed
      ConnectionCheckOutFailedReason.POOL_CLOSED in
  Pool.state closed_pool = CLOSED
  /\ (forall all_credentials env',
        Pool.get_socket_step all_credentials env' closed_pool Pool.L1309
        = (closed_pool, Pool.Raised _PoolClosedError,
           if Pool.enabled_for_cmap self then [failed] else []))
  /\ exists l,
      checkouts attempts closed_pool
      = (closed_pool, map (fun _ => Pool.Raised _PoolClosedError) attempts, l)
      /\ (forall conn_id, ~ In (publish_connection_created conn_id) l)
      /\ (Pool.enabled_for_cmap self = true -> attempts <> [] ->
          In failed l).
Proof.
  intros Hlen. cbv zeta.
  pose proof (close_is_closed self env) as Hs.
  assert (Hcmap : Pool.enabled_for_cmap (fst (fst (Pool.close self env)))
                  = Pool.enabled_for_cmap self).
  { unfold Pool.close, Pool._reset.
    destruct (Pool.closed self); [reflexivity|].
    destruct (PoolOptions.pause_enabled (Pool.opts self)); simpl;
      destruct (Pool.pid self =? getpid env); simpl;
      destruct (Pool.close_sockets _ _); reflexivity. }
  set (closed_pool := fst (fst (Pool.close self env))) in *.
  split; [exact Hs|]. split.
  - intros all_credentials env'. simpl.
    pose proof (closed_state closed_pool Hs) as Hc.
    unfold Pool.publish, Pool.reset.
    rewrite (reset_closed closed_pool false true env' Hc).
    destruct (negb (Pool.pid closed_pool =? getpid env')); rewrite Hc, Hcmap;
      reflexivity.
  - induction Hlen as [|[all_credentials envs] attempts Hx _ IH].
    + exists []. split; [reflexivity|].
      split; [intros ? [] | intros _ H; congruence].
    + destruct IH as (l & Hl & Hno & _). simpl.
      rewrite (checkout_of_closed_pool all_credentials envs closed_pool
                 Hs Hx).
      rewrite Hl. eexists; split; [reflexivity|]. split.
      * intros conn_id H. apply in_app_or in H. destruct H as [H | H].
        -- unfold Pool.publish in H.
           destruct (Pool.enabled_for_cmap closed_pool); simpl in H;
             repeat (destruct H as [H | H]; [discriminate|]); exact H.
        -- exact (Hno conn_id H).
      * intros Hon _. apply in_or_app. left.
        unfold Pool.publish. rewrite Hcmap, Hon. right; left; reflexivity.
Qed.

Lemma checkout_after_close_fails_witness :
  Pool.state (fst (fst (Pool.close an_idle_pool an_env))) = CLOSED.
Proof.
  refine (proj1 (checkout_after_close_fails an_idle_pool an_env
                   [([], [an_env; an_env]); ([], [an_env; an_env; an_env])]
                   _)).
  repeat constructor.
Defined.

(** *** Failed checkouts give back what they took *)

Ltac inv H := inversion H; subst; clear H.

Lemma connect_counters (self self' : Pool.t) (all_credentials : list Cred)
    (env : Env) (l : list Effect) (r : result SocketInfo.t) :
  Pool.connect self all_credentials env = (self', l, r) ->
  Pool.requests self' = Pool.requests self
  /\ Pool.active_sockets self' = Pool.active_sockets self
  /\ Pool._pending self' = Pool._pending self
  /\ Pool.waiters self' = Pool.waiters self
  /\ Pool.state self' = Pool.state self
  /\ Pool.opts self' = Pool.opts self
  /\ Pool.max_pool_size self' = Pool.max_pool_size self.
Proof.
  unfold Pool.connect. intros H.
  repeat break_match; inv H;
    repeat match goal with
           | H : (_, _) = (_, _) |- _ => inv H
           end;
    simpl; repeat split; reflexivity.
Qed.

Ltac use_caught :=
  repeat match goal with
         | H : except_Exception ?e = _ |- context [except_Exception ?e] =>
             rewrite H
         end.

Lemma get_socket_step_held (all_credentials : list Cred) (env : Env)
    (self self' : Pool.t) (pc pc' : Pool.gs_pc) (l : list Effect) :
  past_entry pc = true ->
  Pool.get_socket_step all_credentials env self pc = (self', pc', l) ->
  past_entry pc' = true
  /\ Pool.requests self' - Pool.requests self
     = held_requests pc' - held_requests pc
  /\ Pool.active_sockets self' - Pool.active_sockets self
     = held_active_sockets pc' - held_active_sockets pc
  /\ Pool._pending self' - Pool._pending self
     = held__pending pc' - held__pending pc
  /\ Pool.waiters self' - Pool.waiters self
     = held_waiters pc' - held_waiters pc
  /\ (held_requests pc = 1 -> held_requests pc' = 0 ->
      In (notify size_cond) l).
Proof.
  intros Hpast H.
  destruct pc; simpl in Hpast; try discriminate; simpl in H;
    unfold Pool.admission_loop, Pool.creation_loop,
      Pool._raise_wait_queue_timeout, Pool._raise_if_not_ready in H.
  all: try (destruct (Pool.connect self all_credentials env)
              as [[s0 l0] r0] eqn:Ec;
            apply connect_counters in Ec;
            destruct Ec as (? & ? & ? & ? & _)).
  all: repeat break_match; inv H;
    repeat match goal with
           | H : (_, _) = (_, _) |- _ => inv H
           | H : Some _ = Some _ |- _ => inv H
           end;
    simpl; use_caught;
    repeat split; try lia; try discriminate; try reflexivity; intros;
    try lia; try discriminate.
  all: try (apply in_or_app; right; left; reflexivity).
  all: try (left; reflexivity).
Qed.

Lemma gs_exec_net (all_credentials : list Cred) (pc pc' : Pool.gs_pc)
    (steps : list (Pool.t * Pool.t)) (l : list Effect) :
  gs_exec all_credentials pc steps l pc' ->
  past_entry pc = true ->
  net Pool.requests steps = held_requests pc' - held_requests pc
  /\ net Pool.active_sockets steps
     = held_active_sockets pc' - held_active_sockets pc
  /\ net Pool._pending steps = held__pending pc' - held__pending pc
  /\ net Pool.waiters steps = held_waiters pc' - held_waiters pc.
Proof.
  induction 1 as [pc | env self self' pc pc' l steps l' pc'' Hstep _ IH];
    intros Hpast; simpl.
  - repeat split; lia.
  - destruct (get_socket_step_held _ _ _ _ _ _ _ Hpast Hstep)
      as (Hpast' & Hr & Ha & Hp & Hw & _).
    destruct (IH Hpast') as (IHr & IHa & IHp & IHw).
    repeat split; lia.
Qed.


Lemma get_socket_run_exec (all_credentials : list Cred) (envs : list Env)
    (self : Pool.t) (pc : Pool.gs_pc) :
  gs_exec all_credentials pc
    (get_socket_steps all_credentials envs self pc)
    (snd (get_socket_run all_credentials envs self pc))
    (snd (fst (get_socket_run all_credentials envs self pc))).
Proof.
  revert self pc.
  induction envs as [|env envs IH]; intros self pc; simpl.
  - constructor.
  - destruct (Pool.get_socket_step all_credentials env self pc)
      as [[self' pc'] l] eqn:Hstep.
    specialize (IH self' pc').
    destruct (get_socket_run all_credentials envs self' pc')
      as [[self'' pc''] l'] eqn:Hrun.
    simpl in *. econstructor; eassumption.
Qed.




(** What the amended claim leaves out: the handler of line 1391 is
    [except Exception], and a dial ended by a KeyboardInterrupt passes it
    by.  The [finally] of line 1386 has given back the pending creation;
    the request and the active socket stay counted and nobody is
    notified on the admission condition. *)
Lemma interrupted_checkout_keeps_its_request :
  let ready_pool := fst (Pool.ready a_pool) in
  let '(self', pc, l) :=
    get_socket_run [] (repeat an_interrupted_env 7) ready_pool Pool.L1320 in
  pc = Pool.Raised
         (Reraised {| err_class := KeyboardInterrupt; err_str := "" |})
  /\ Pool.requests self' = Pool.requests ready_pool + 1
  /\ Pool.active_sockets self' = Pool.active_sockets ready_pool + 1
  /\ Pool._pending self' = Pool._pending ready_pool
  /\ ~ In (notify size_cond) l.
Proof.
  vm_compute. repeat split; try reflexivity.
  intros H.
  repeat (destruct H as [H | H]; [discriminate|]). exact H.
Qed.

(** *** Timeouts of the two waits *)




(** *** The bound on admitted requests *)

(** C4, as stated, fails: in a pool of max_pool_size 1 a single checkout
    that is dialing, outside the lock, counts once in active_sockets and
    once in _pending. *)
Lemma dialing_checkout_exceeds_max_pool_size :
  let s := system_run a_dialing_script (start some_options true an_env) in
  threads s = [in_get_socket [] (Pool.L1385 (Some 5100))]
  /\ Pool.max_pool_size (pool s) = Some 1
  /\ Pool.requests (pool s) = 1
  /\ Pool.active_sockets (pool s) = 1
  /\ Pool._pending (pool s) = 1
  /\ ~ Pool.active_sockets (pool s) + Pool._pending (pool s) <= 1.
Proof. vm_compute. repeat split; try reflexivity. intros H; apply H; reflexivity. Qed.

Lemma admits_refl (self : Pool.t) : admits self self.
Proof. repeat split; left; lia. Qed.

Lemma reset_admits (self self' : Pool.t) (close pause : bool) (env : Env)
    (drained : list SocketInfo.t) (l : list Effect) :
  Pool._reset self close pause env = (self', drained, l) ->
  admits self self'.
Proof.
  unfold Pool._reset, admits. intros H.
  repeat break_match; inv H;
    repeat match goal with
           | H : (_, _) = (_, _) |- _ => inv H
           end;
    simpl; repeat split; left; lia.
Qed.

Lemma ready_admits (self : Pool.t) : admits self (fst (Pool.ready self)).
Proof.
  unfold Pool.ready, admits.
  destruct (negb (PoolState_eqb (Pool.state self) READY)); simpl;
    repeat split; left; lia.
Qed.

Lemma connect_admits (self self' : Pool.t) (all_credentials : list Cred)
    (env : Env) (l : list Effect) (r : result SocketInfo.t) :
  Pool.connect self all_credentials env = (self', l, r) ->
  admits self self'.
Proof.
  intros H. apply connect_counters in H.
  destruct H as (Hr & _ & _ & _ & _ & Ho & Hm).
  repeat split; try assumption. left; lia.
Qed.

Lemma get_socket_step_admits (all_credentials : list Cred) (env : Env)
    (self self' : Pool.t) (pc pc' : Pool.gs_pc) (l : list Effect) :
  Pool.get_socket_step all_credentials env self pc = (self', pc', l) ->
  admits self self'.
Proof.
  intros H.
  destruct pc; simpl in H;
    unfold Pool.admission_loop, Pool.creation_loop,
      Pool._raise_wait_queue_timeout, Pool.reset in H.
  all: try (destruct (Pool.connect self all_credentials env)
              as [[s0 l0] r0] eqn:Ec;
            apply connect_admits in Ec).
  all: try (destruct (Pool._reset self false true env)
              as [[s1 d1] l1] eqn:Er;
            apply reset_admits in Er).
  all: repeat break_match; inv H;
    repeat match goal with
           | H : (_, _) = (_, _) |- _ => inv H
           end;
    try assumption; try apply admits_refl.
  all: unfold admits; simpl; repeat split;
    try (left; lia); try (right; split; [lia | left; assumption]).
Qed.

Lemma return_socket_step_admits (env : Env) (self self' : Pool.t)
    (pc pc' : Pool.rs_pc) (l : list Effect) :
  Pool.return_socket_step env self pc = (self', pc', l) ->
  admits self self'.
Proof.
  intros H.
  destruct pc; simpl in H; unfold Pool.reset in H.
  all: try (destruct (Pool._reset self false true env)
              as [[s1 d1] l1] eqn:Er;
            apply reset_admits in Er).
  all: repeat break_match; inv H;
    repeat match goal with
           | H : (_, _) = (_, _) |- _ => inv H
           end;
    try assumption; try apply admits_refl.
  all: unfold admits; simpl; repeat split; left; lia.
Qed.

Lemma remove_stale_sockets_step_admits (reference_generation : Z)
    (all_credentials : list Cred) (env : Env) (self self' : Pool.t)
    (pc pc' : Pool.ms_pc) (l : list Effect) :
  Pool.remove_stale_sockets_step reference_generation all_credentials env
    self pc = (self', pc', l) ->
  admits self self'.
Proof.
  intros H.
  destruct pc; simpl in H.
  all: try (destruct (Pool.connect self all_credentials env)
              as [[s0 l0] r0] eqn:Ec;
            apply connect_admits in Ec).
  all: repeat break_match; inv H;
    repeat match goal with
           | H : (_, _) = (_, _) |- _ => inv H
           end;
    try assumption; try apply admits_refl.
  all: unfold admits; simpl; repeat split;
    try (left; lia); try (right; split; [lia | right; lia]).
Qed.

Lemma system_step_admits (env : Env) (a : Action) (s : System) :
  admits (pool s) (pool (system_step env a s)).
Proof.
  destruct a; simpl; try apply admits_refl.
  - pose proof (ready_admits (pool s)) as H.
    destruct (Pool.ready (pool s)); exact H.
  - unfold Pool.reset.
    destruct (Pool._reset (pool s) false true env) as [[p d] l] eqn:E.
    exact (reset_admits _ _ _ _ _ _ _ E).
  - unfold Pool.reset_without_pause.
    destruct (Pool._reset (pool s) false false env) as [[p d] l] eqn:E.
    exact (reset_admits _ _ _ _ _ _ _ E).
  - unfold Pool.close.
    destruct (Pool._reset (pool s) true true env) as [[p d] l] eqn:E.
    exact (reset_admits _ _ _ _ _ _ _ E).
  - unfold Pool.update_is_writable, admits; simpl. repeat split; left; lia.
  - destruct (nth_error (threads s) i) as [th|]; [|apply admits_refl].
    destruct th as [creds pc | pc | refgen creds pc]; simpl.
    + destruct (Pool.get_socket_step creds env (pool s) pc)
        as [[p pc'] l] eqn:E.
      exact (get_socket_step_admits _ _ _ _ _ _ _ E).
    + destruct (Pool.return_socket_step env (pool s) pc)
        as [[p pc'] l] eqn:E.
      exact (return_socket_step_admits _ _ _ _ _ _ E).
    + destruct (Pool.remove_stale_sockets_step refgen creds env (pool s) pc)
        as [[p pc'] l] eqn:E.
      exact (remove_stale_sockets_step_admits _ _ _ _ _ _ _ _ E).
Qed.

Lemma system_run_requests_within (options : PoolOptions.t) (m : Z)
    (script : list (Env * Action)) (s : System) :
  PoolOptions.min_pool_size options <= m ->
  requests_within options m (pool s) ->
  requests_within options m (pool (system_run script s)).
Proof.
  intros Hmin. revert s.
  induction script as [|[env a] script IH]; intros s Hs; simpl; [exact Hs|].
  apply IH.
  destruct Hs as (Ho & Hm & Hr).
  destruct (system_step_admits env a s) as (Ho' & Hm' & Hr').
  unfold requests_within.
  rewrite Ho', Hm', Ho, Hm. repeat split.
  destruct Hr' as [Hle | [Heq [Hlt | Hlt]]].
  - lia.
  - rewrite Hm in Hlt. simpl in Hlt. apply Z.ltb_lt in Hlt. lia.
  - rewrite Ho in Hlt. lia.
Qed.

(** C4 (amended): in a pool of finite max_pool_size with min_pool_size
    within it, after any interleaving of the atomic steps of checkouts,
    checkins and maintenance runs with ready(), reset(), close() and
    update_is_writable(), the number of admitted requests is at most
    max_pool_size. *)
Theorem requests_never_exceed_max_pool_size (options : PoolOptions.t)
    (handshake : bool) (env : Env) (m : Z) (script : list (Env * Action)) :
  PoolOptions.max_pool_size options = Some m ->
  0 <= m ->
  PoolOptions.min_pool_size options <= m ->
  Pool.requests (pool (system_run script (start options handshake env))) <= m.
Proof.
  intros Hmax Hm Hmin.
  apply (system_run_requests_within options m script
           (start options handshake env) Hmin).
  unfold start, Pool.__init__, requests_within. simpl.
  repeat split; [exact Hmax | exact Hm].
Qed.

Lemma requests_never_exceed_max_pool_size_witness :
  Pool.requests
    (pool (system_run a_dialing_script (start some_options true an_env)))
  <= 1.
Proof.
  apply (requests_never_exceed_max_pool_size some_options true an_env 1
           a_dialing_script); [reflexivity | lia | simpl; lia].
Defined.

(** The condition on min_pool_size is needed: maintenance admits itself
    against min_pool_size (line 1182), not against max_pool_size. *)
Lemma maintenance_admits_up_to_min_pool_size :
  let s :=
    system_run a_maintenance_script (start oversized_min_options true an_env) in
  Pool.max_pool_size (pool s) = Some 1 /\ Pool.requests (pool s) = 2.
Proof. vm_compute. split; reflexivity. Qed.

(** *** CLOSED *)

Lemma reset_keeps_closed (self self' : Pool.t) (close pause : bool)
    (env : Env) (drained : list SocketInfo.t) (l : list Effect) :
  Pool._reset self close pause env = (self', drained, l) ->
  Pool.state self = CLOSED -> Pool.state self' = CLOSED.
Proof.
  intros H Hs. rewrite (reset_closed self close pause env (closed_state self Hs)) in H.
  inv H. exact Hs.
Qed.

Lemma get_socket_step_keeps_closed (all_credentials : list Cred) (env : Env)
    (self self' : Pool.t) (pc pc' : Pool.gs_pc) (l : list Effect) :
  Pool.get_socket_step all_credentials env self pc = (self', pc', l) ->
  Pool.state self = CLOSED -> Pool.state self' = CLOSED.
Proof.
  intros H Hs.
  destruct pc; simpl in H;
    unfold Pool.admission_loop, Pool.creation_loop,
      Pool._raise_wait_queue_timeout, Pool.reset in H.
  all: try (destruct (Pool.connect self all_credentials env)
              as [[s0 l0] r0] eqn:Ec;
            apply connect_counters in Ec;
            destruct Ec as (_ & _ & _ & _ & Hst & _)).
  all: try (destruct (Pool._reset self false true env)
              as [[s1 d1] l1] eqn:Er;
            apply reset_keeps_closed in Er; [|exact Hs]).
  all: repeat break_match; inv H;
    repeat match goal with
           | H : (_, _) = (_, _) |- _ => inv H
           end;
    simpl; congruence.
Qed.

Lemma return_socket_step_keeps_closed (env : Env) (self self' : Pool.t)
    (pc pc' : Pool.rs_pc) (l : list Effect) :
  Pool.return_socket_step env self pc = (self', pc', l) ->
  Pool.state self = CLOSED -> Pool.state self' = CLOSED.
Proof.
  intros H Hs.
  destruct pc; simpl in H; unfold Pool.reset in H.
  all: try (destruct (Pool._reset self false true env)
              as [[s1 d1] l1] eqn:Er;
            apply reset_keeps_closed in Er; [|exact Hs]).
  all: repeat break_match; inv H;
    repeat match goal with
           | H : (_, _) = (_, _) |- _ => inv H
           end;
    simpl; congruence.
Qed.

Lemma remove_stale_sockets_step_keeps_closed (reference_generation : Z)
    (all_credentials : list Cred) (env : Env) (self self' : Pool.t)
    (pc pc' : Pool.ms_pc) (l : list Effect) :
  Pool.remove_stale_sockets_step reference_generation all_credentials env
    self pc = (self', pc', l) ->
  Pool.state self = CLOSED -> Pool.state self' = CLOSED.
Proof.
  intros H Hs.
  destruct pc; simpl in H.
  all: try (destruct (Pool.connect self all_credentials env)
              as [[s0 l0] r0] eqn:Ec;
            apply connect_counters in Ec;
            destruct Ec as (_ & _ & _ & _ & Hst & _)).
  all: repeat break_match; inv H;
    repeat match goal with
           | H : (_, _) = (_, _) |- _ => inv H
           end;
    simpl; congruence.
Qed.

(** Whatever is done to a CLOSED pool other than calling ready() leaves it
    CLOSED. *)
Lemma closed_is_kept (env : Env) (a : Action) (s : System) :
  a <> call_ready ->
  Pool.state (pool s) = CLOSED ->
  Pool.state (pool (system_step env a s)) = CLOSED.
Proof.
  intros Ha Hs.
  destruct a; simpl; try assumption; try congruence.
  - unfold Pool.reset.
    destruct (Pool._reset (pool s) false true env) as [[p d] l] eqn:E.
    exact (reset_keeps_closed _ _ _ _ _ _ _ E Hs).
  - unfold Pool.reset_without_pause.
    destruct (Pool._reset (pool s) false false env) as [[p d] l] eqn:E.
    exact (reset_keeps_closed _ _ _ _ _ _ _ E Hs).
  - unfold Pool.close.
    destruct (Pool._reset (pool s) true true env) as [[p d] l] eqn:E.
    exact (reset_keeps_closed _ _ _ _ _ _ _ E Hs).
  - destruct (nth_error (threads s) i) as [th|]; [|exact Hs].
    destruct th as [creds pc | pc | refgen creds pc]; simpl.
    + destruct (Pool.get_socket_step creds env (pool s) pc)
        as [[p pc'] l] eqn:E.
      exact (get_socket_step_keeps_closed _ _ _ _ _ _ _ E Hs).
    + destruct (Pool.return_socket_step env (pool s) pc)
        as [[p pc'] l] eqn:E.
      exact (return_socket_step_keeps_closed _ _ _ _ _ _ E Hs).
    + destruct (Pool.remove_stale_sockets_step refgen creds env (pool s) pc)
        as [[p pc'] l] eqn:E.
      exact (remove_stale_sockets_step_keeps_closed _ _ _ _ _ _ _ _ E Hs).
Qed.

(** C3 does not hold of ready(): on the pool that close() has left CLOSED,
    ready() sets the state to READY and emits PoolReady, and the next
    checkout dials a connection and returns it. *)
Lemma ready_reopens_closed_pool :
  let closed_pool := fst (fst (Pool.close an_idle_pool an_env)) in
  let reopened := fst (Pool.ready closed_pool) in
  Pool.state closed_pool = CLOSED
  /\ Pool.ready closed_pool
     = (Pool.set_state closed_pool READY, [publish_pool_ready])
  /\ Pool.state reopened = READY
  /\ exists self' sock_info,
       get_socket_run [] (repeat an_env 10) reopened Pool.L1277
       = (self', Pool.Returned sock_info,
          [publish_connection_check_out_started;
           publish_connection_created 2;
           publish_connection_ready 2;
           notify _max_connecting_cond;
           publish_connection_checked_out 2]).
Proof.
  cbv zeta. repeat split; try reflexivity.
  eexists. eexists. vm_compute. reflexivity.
Qed.

(** * Further properties of the pool *)

Ltac bool_to_Z :=
  repeat match goal with
         | H : (_ <? _) = true |- _ => apply Z.ltb_lt in H
         | H : (_ <? _) = false |- _ => apply Z.ltb_ge in H
         | H : (_ >=? _) = true |- _ => rewrite Z.geb_leb in H; apply Z.leb_le in H
         | H : (_ >=? _) = false |- _ => rewrite Z.geb_leb in H; apply Z.leb_gt in H
         | H : (_ >? _) = true |- _ => rewrite Z.gtb_ltb in H; apply Z.ltb_lt in H
         | H : (_ >? _) = false |- _ => rewrite Z.gtb_ltb in H; apply Z.ltb_ge in H
         | H : (_ =? _) = true |- _ => apply Z.eqb_eq in H
         | H : (_ =? _) = false |- _ => apply Z.eqb_neq in H
         end.

Ltac inv_pairs :=
  repeat match goal with
         | H : (_, _) = (_, _) |- _ => inv H
         end.

(** *** The throttles, the generation and the connection ids *)

Lemma advances_refl (self : Pool.t) : advances self self.
Proof. unfold advances. repeat split; try (left; lia); lia. Qed.

Lemma connect_frame (self self' : Pool.t) (all_credentials : list Cred)
    (env : Env) (l : list Effect) (r : result SocketInfo.t) :
  Pool.connect self all_credentials env = (self', l, r) ->
  Pool._max_connecting self' = Pool._max_connecting self
  /\ Pool.max_waiters self' = Pool.max_waiters self
  /\ Pool.generation self' = Pool.generation self
  /\ Pool.next_connection_id self' = Pool.next_connection_id self + 1
  /\ Pool.operation_count self' = Pool.operation_count self
  /\ Pool.sockets self' = Pool.sockets self
  /\ Pool.pid self' = Pool.pid self
  /\ Pool.enabled_for_cmap self' = Pool.enabled_for_cmap self.
Proof.
  unfold Pool.connect. intros H.
  repeat break_match; inv H; inv_pairs; simpl; repeat split; reflexivity.
Qed.

Lemma connect_advances (self self' : Pool.t) (all_credentials : list Cred)
    (env : Env) (l : list Effect) (r : result SocketInfo.t) :
  Pool.connect self all_credentials env = (self', l, r) ->
  advances self self'.
Proof.
  intros H. pose proof (connect_counters _ _ _ _ _ _ H) as (_ & _ & Hp & Hw & _).
  apply connect_frame in H. destruct H as (Hm & Hx & Hg & Hn & _).
  unfold advances. repeat split; try assumption; try (left; lia); lia.
Qed.

Lemma reset_advances (self self' : Pool.t) (close pause : bool) (env : Env)
    (drained : list SocketInfo.t) (l : list Effect) :
  Pool._reset self close pause env = (self', drained, l) ->
  advances self self'.
Proof.
  unfold Pool._reset, advances. intros H.
  repeat break_match; inv H; inv_pairs;
    simpl; repeat split; try (left; lia); lia.
Qed.

Lemma get_socket_step_advances (all_credentials : list Cred) (env : Env)
    (self self' : Pool.t) (pc pc' : Pool.gs_pc) (l : list Effect) :
  Pool.get_socket_step all_credentials env self pc = (self', pc', l) ->
  advances self self'.
Proof.
  intros H.
  destruct pc; simpl in H;
    unfold Pool.admission_loop, Pool.creation_loop, Pool.creation_pred,
      Pool._raise_wait_queue_timeout, Pool.reset in H.
  all: try (destruct (Pool.connect self all_credentials env)
              as [[s0 l0] r0] eqn:Ec;
            apply connect_advances in Ec).
  all: try (destruct (Pool._reset self false true env)
              as [[s1 d1] l1] eqn:Er;
            apply reset_advances in Er).
  all: repeat break_match; inv H; inv_pairs;
    try assumption; try apply advances_refl.
  all: bool_to_Z; unfold advances; simpl; repeat split;
    try lia; try (left; lia);
    try (right; split; [lia | first [assumption | lia]]).
Qed.

Lemma return_socket_step_advances (env : Env) (self self' : Pool.t)
    (pc pc' : Pool.rs_pc) (l : list Effect) :
  Pool.return_socket_step env self pc = (self', pc', l) ->
  advances self self'.
Proof.
  intros H.
  destruct pc; simpl in H; unfold Pool.reset in H.
  all: try (destruct (Pool._reset self false true env)
              as [[s1 d1] l1] eqn:Er;
            apply reset_advances in Er).
  all: repeat break_match; inv H; inv_pairs;
    try assumption; try apply advances_refl.
  all: unfold advances; simpl; repeat split; try lia; left; lia.
Qed.

Lemma remove_stale_sockets_step_advances (reference_generation : Z)
    (all_credentials : list Cred) (env : Env) (self self' : Pool.t)
    (pc pc' : Pool.ms_pc) (l : list Effect) :
  Pool.remove_stale_sockets_step reference_generation all_credentials env
    self pc = (self', pc', l) ->
  advances self self'.
Proof.
  intros H.
  destruct pc; simpl in H.
  all: try (destruct (Pool.connect self all_credentials env)
              as [[s0 l0] r0] eqn:Ec;
            apply connect_advances in Ec).
  all: repeat break_match; inv H; inv_pairs;
    try assumption; try apply advances_refl.
  all: bool_to_Z; unfold advances; simpl; repeat split;
    try lia; try (left; lia); try (right; split; lia).
Qed.

Lemma system_step_advances (env : Env) (a : Action) (s : System) :
  advances (pool s) (pool (system_step env a s)).
Proof.
  destruct a; simpl; try apply advances_refl.
  - unfold Pool.ready.
    destruct (negb (PoolState_eqb (Pool.state (pool s)) READY)); simpl;
      unfold advances; simpl; repeat split; try lia; left; lia.
  - unfold Pool.reset.
    destruct (Pool._reset (pool s) false true env) as [[p d] l] eqn:E.
    exact (reset_advances _ _ _ _ _ _ _ E).
  - unfold Pool.reset_without_pause.
    destruct (Pool._reset (pool s) false false env) as [[p d] l] eqn:E.
    exact (reset_advances _ _ _ _ _ _ _ E).
  - unfold Pool.close.
    destruct (Pool._reset (pool s) true true env) as [[p d] l] eqn:E.
    exact (reset_advances _ _ _ _ _ _ _ E).
  - unfold Pool.update_is_writable, advances; simpl.
    repeat split; try lia; left; lia.
  - destruct (nth_error (threads s) i) as [th|]; [|apply advances_refl].
    destruct th as [creds pc | pc | refgen creds pc]; simpl.
    + destruct (Pool.get_socket_step creds env (pool s) pc)
        as [[p pc'] l] eqn:E.
      exact (get_socket_step_advances _ _ _ _ _ _ _ E).
    + destruct (Pool.return_socket_step env (pool s) pc)
        as [[p pc'] l] eqn:E.
      exact (return_socket_step_advances _ _ _ _ _ _ E).
    + destruct (Pool.remove_stale_sockets_step refgen creds env (pool s) pc)
        as [[p pc'] l] eqn:E.
      exact (remove_stale_sockets_step_advances _ _ _ _ _ _ _ _ E).
Qed.

Lemma system_run_pending (mc : Z) (script : list (Env * Action)) (s : System) :
  Pool._max_connecting (pool s) = mc ->
  Pool._pending (pool s) <= mc ->
  Pool._max_connecting (pool (system_run script s)) = mc
  /\ Pool._pending (pool (system_run script s)) <= mc.
Proof.
  revert s.
  induction script as [|[env a] script IH]; intros s Hmc Hp; simpl; [auto|].
  destruct (system_step_advances env a s) as (Hmc' & _ & Hp' & _).
  apply IH; [congruence|].
  destruct Hp' as [Hle | [Heq Hlt]]; lia.
Qed.

(** X1: after any interleaving of the atomic steps of checkouts, checkins
    and maintenance runs with the pool's other methods, the number of
    connections being created is at most max_connecting. *)
Theorem pending_never_exceeds_max_connecting (options : PoolOptions.t)
    (handshake : bool) (env : Env) (script : list (Env * Action)) :
  0 <= PoolOptions.max_connecting options ->
  Pool._pending (pool (system_run script (start options handshake env)))
  <= PoolOptions.max_connecting options.
Proof.
  intros Hmc.
  apply (system_run_pending (PoolOptions.max_connecting options) script
           (start options handshake env)); [reflexivity | exact Hmc].
Qed.

Lemma pending_never_exceeds_max_connecting_witness :
  Pool._pending
    (pool (system_run a_dialing_script (start some_options true an_env)))
  <= 2.
Proof.
  apply (pending_never_exceeds_max_connecting some_options true an_env
           a_dialing_script).
  simpl. lia.
Defined.

Lemma system_run_waiters (mw : Z) (script : list (Env * Action)) (s : System) :
  Pool.max_waiters (pool s) = Some mw ->
  Pool.waiters (pool s) <= mw ->
  Pool.max_waiters (pool (system_run script s)) = Some mw
  /\ Pool.waiters (pool (system_run script s)) <= mw.
Proof.
  revert s.
  induction script as [|[env a] script IH]; intros s Hmw Hw; simpl; [auto|].
  destruct (system_step_advances env a s) as (_ & Hmw' & _ & Hw' & _).
  apply IH; [congruence|].
  destruct Hw' as [Hle | [Heq Hlt]]; [lia|].
  rewrite Hmw in Hlt. simpl in Hlt. bool_to_Z. lia.
Qed.

(** X2: in a pool with a wait-queue multiple and a finite size, after any
    interleaving the number of threads counted as waiting for admission is
    at most max_pool_size * wait_queue_multiple. *)
Theorem waiters_never_exceed_max_waiters (options : PoolOptions.t)
    (handshake : bool) (env : Env) (script : list (Env * Action))
    (size multiple : Z) :
  PoolOptions.max_pool_size options = Some size ->
  PoolOptions.wait_queue_multiple options = Some multiple ->
  0 <= size * multiple ->
  Pool.waiters (pool (system_run script (start options handshake env)))
  <= size * multiple.
Proof.
  intros Hs Hm Hpos.
  apply (system_run_waiters (size * multiple) script
           (start options handshake env)); [|exact Hpos].
  unfold start, Pool.__init__. simpl. rewrite Hs, Hm. reflexivity.
Qed.

(** X3: whatever is done to a pool, its generation and the id it will give
    to the next connection never go down. *)
Theorem generation_and_ids_never_decrease (script : list (Env * Action))
    (s : System) :
  Pool.generation (pool s) <= Pool.generation (pool (system_run script s))
  /\ Pool.next_connection_id (pool s)
     <= Pool.next_connection_id (pool (system_run script s)).
Proof.
  revert s.
  induction script as [|[env a] script IH]; intros s; simpl; [lia|].
  destruct (system_step_advances env a s) as (_ & _ & _ & _ & Hg & Hn).
  destruct (IH (system_step env a s)) as [IHg IHn]. lia.
Qed.

Lemma waiters_never_exceed_max_waiters_witness :
  Pool.waiters
    (pool (system_run a_waiting_script (start waiting_options true an_env)))
  <= 1 * 2.
Proof.
  apply (waiters_never_exceed_max_waiters waiting_options true an_env
           a_waiting_script 1 2); [reflexivity | reflexivity | lia].
Defined.

(** In that run the second checkout is indeed counted as waiting. *)
Lemma a_waiting_script_waits :
  Pool.waiters
    (pool (system_run a_waiting_script (start waiting_options true an_env)))
  = 1.
Proof. vm_compute. reflexivity. Qed.

(** *** What a checkout adds to the counters *)

Lemma get_socket_step_counts (all_credentials : list Cred) (env : Env)
    (self self' : Pool.t) (pc pc' : Pool.gs_pc) (l : list Effect) :
  past_entry pc = true ->
  Pool.get_socket_step all_credentials env self pc = (self', pc', l) ->
  Pool.operation_count self' - Pool.operation_count self
  = held_operation_count pc' - held_operation_count pc.
Proof.
  intros Hpast H.
  destruct pc; simpl in Hpast; try discriminate; simpl in H;
    unfold Pool.admission_loop, Pool.creation_loop,
      Pool._raise_wait_queue_timeout in H.
  all: try (destruct (Pool.connect self all_credentials env)
              as [[s0 l0] r0] eqn:Ec;
            apply connect_frame in Ec;
            destruct Ec as (_ & _ & _ & _ & Hop & _)).
  all: repeat break_match; inv H; inv_pairs; simpl; lia.
Qed.

Lemma gs_exec_operation_count (all_credentials : list Cred)
    (pc pc' : Pool.gs_pc) (steps : list (Pool.t * Pool.t)) (l : list Effect) :
  gs_exec all_credentials pc steps l pc' ->
  past_entry pc = true ->
  net Pool.operation_count steps
  = held_operation_count pc' - held_operation_count pc.
Proof.
  induction 1 as [pc | env self self' pc pc' l steps l' pc'' Hstep _ IH];
    intros Hpast; simpl; [lia|].
  pose proof (get_socket_step_counts _ _ _ _ _ _ _ Hpast Hstep) as Hop.
  destruct (get_socket_step_held _ _ _ _ _ _ _ Hpast Hstep) as (Hpast' & _).
  specialize (IH Hpast'). lia.
Qed.

(** X4: a checkout that returns a connection has, over its own steps from
    line 1320 on, added exactly one to requests, to active_sockets and to
    operation_count, and nothing to _pending and to waiters. *)
Theorem successful_checkout_counts_once (all_credentials : list Cred)
    (steps : list (Pool.t * Pool.t)) (l : list Effect)
    (sock_info : SocketInfo.t) :
  gs_exec all_credentials Pool.L1320 steps l (Pool.Returned sock_info) ->
  net Pool.requests steps = 1
  /\ net Pool.active_sockets steps = 1
  /\ net Pool.operation_count steps = 1
  /\ net Pool._pending steps = 0
  /\ net Pool.waiters steps = 0.
Proof.
  intros Hexec.
  destruct (gs_exec_net _ _ _ _ _ Hexec eq_refl) as (Hr & Ha & Hp & Hw).
  pose proof (gs_exec_operation_count _ _ _ _ _ Hexec eq_refl) as Hop.
  simpl in *. repeat split; assumption.
Qed.

Lemma successful_checkout_counts_once_witness :
  let steps :=
    get_socket_steps [] (repeat an_env 9) (fst (Pool.ready a_pool))
      Pool.L1320 in
  net Pool.requests steps = 1
  /\ net Pool.active_sockets steps = 1
  /\ net Pool.operation_count steps = 1
  /\ net Pool._pending steps = 0
  /\ net Pool.waiters steps = 0.
Proof.
  pose proof (get_socket_run_exec [] (repeat an_env 9)
                (fst (Pool.ready a_pool)) Pool.L1320) as Hexec.
  assert (Hpc : snd (fst (get_socket_run [] (repeat an_env 9)
                            (fst (Pool.ready a_pool)) Pool.L1320))
                = Pool.Returned a_fresh_sock)
    by (vm_compute; reflexivity).
  rewrite Hpc in Hexec.
  exact (successful_checkout_counts_once [] _ _ a_fresh_sock Hexec).
Defined.

(** X5: a checkout that raises after line 1320, whatever the reason, has
    added one to operation_count and has not taken it back. *)
Theorem failed_checkout_counts_operation (all_credentials : list Cred)
    (steps : list (Pool.t * Pool.t)) (l : list Effect) (e : Exn) :
  gs_exec all_credentials Pool.L1320 steps l (Pool.Raised e) ->
  net Pool.operation_count steps = 1.
Proof.
  intros Hexec.
  exact (gs_exec_operation_count _ _ _ _ _ Hexec eq_refl).
Qed.

Lemma failed_checkout_counts_operation_witness :
  net Pool.operation_count
    (get_socket_steps [] (repeat a_failing_env 7) (fst (Pool.ready a_pool))
       Pool.L1320)
  = 1.
Proof.
  pose proof (get_socket_run_exec [] (repeat a_failing_env 7)
                (fst (Pool.ready a_pool)) Pool.L1320) as Hexec.
  assert (Hpc : snd (fst (get_socket_run [] (repeat a_failing_env 7)
                            (fst (Pool.ready a_pool)) Pool.L1320))
                = Pool.Raised (AutoReconnect "Connection refused"))
    by (vm_compute; reflexivity).
  rewrite Hpc in Hexec.
  exact (failed_checkout_counts_operation [] _ _ _ Hexec).
Defined.

(** *** Checkout followed by checkin *)

Lemma net_get_socket_steps (counter : Pool.t -> Z)
    (all_credentials : list Cred) (envs : list Env) (self : Pool.t)
    (pc : Pool.gs_pc) :
  net counter (get_socket_steps all_credentials envs self pc)
  = counter (fst (fst (get_socket_run all_credentials envs self pc)))
    - counter self.
Proof.
  revert self pc.
  induction envs as [|env envs IH]; intros self pc; simpl; [lia|].
  destruct (Pool.get_socket_step all_credentials env self pc)
    as [[self' pc'] l] eqn:Hstep.
  simpl. rewrite IH.
  destruct (get_socket_run all_credentials envs self' pc')
    as [[self'' pc''] l'].
  simpl. lia.
Qed.

Lemma return_socket_counters (self : Pool.t) (sock_info : SocketInfo.t)
    (env : Env) :
  Pool.pid self = getpid env ->
  let self' := fst (fst (Pool.return_socket self sock_info env)) in
  Pool.requests self' = Pool.requests self - 1
  /\ Pool.active_sockets self' = Pool.active_sockets self - 1
  /\ Pool.operation_count self' = Pool.operation_count self - 1
  /\ Pool._pending self' = Pool._pending self
  /\ Pool.waiters self' = Pool.waiters self
  /\ Pool.generation self' = Pool.generation self
  /\ Pool.state self' = Pool.state self.
Proof.
  intros Hpid. cbv zeta.
  unfold Pool.return_socket, Pool.return_socket_step.
  rewrite Hpid, Z.eqb_refl. simpl negb. cbv iota.
  repeat break_match; inv_pairs; simpl; repeat split; reflexivity.
Qed.

(** X6: a checkout run from line 1320 until it returns a connection,
    followed by the checkin of that connection in the same process, leaves
    requests, active_sockets, operation_count, _pending and waiters as they
    were before the checkout. *)
Theorem checkout_then_checkin_restores_counters (all_credentials : list Cred)
    (envs : list Env) (env : Env) (self self1 : Pool.t)
    (sock_info : SocketInfo.t) (l : list Effect) :
  get_socket_run all_credentials envs self Pool.L1320
  = (self1, Pool.Returned sock_info, l) ->
  Pool.pid self1 = getpid env ->
  let self2 := fst (fst (Pool.return_socket self1 sock_info env)) in
  Pool.requests self2 = Pool.requests self
  /\ Pool.active_sockets self2 = Pool.active_sockets self
  /\ Pool.operation_count self2 = Pool.operation_count self
  /\ Pool._pending self2 = Pool._pending self
  /\ Pool.waiters self2 = Pool.waiters self.
Proof.
  intros Hrun Hpid. cbv zeta.
  pose proof (get_socket_run_exec all_credentials envs self Pool.L1320)
    as Hexec.
  rewrite Hrun in Hexec. simpl in Hexec.
  destruct (gs_exec_net _ _ _ _ _ Hexec eq_refl) as (Hr & Ha & Hp & Hw).
  pose proof (gs_exec_operation_count _ _ _ _ _ Hexec eq_refl) as Ho.
  cbn [held_requests held_active_sockets held__pending held_waiters
       held_operation_count] in Hr, Ha, Ho, Hp, Hw.
  rewrite net_get_socket_steps, Hrun in Hr, Ha, Ho, Hp, Hw.
  simpl in Hr, Ha, Ho, Hp, Hw.
  destruct (return_socket_counters self1 sock_info env Hpid)
    as (Hr' & Ha' & Ho' & Hp' & Hw' & _).
  repeat split; lia.
Qed.

Lemma checkout_then_checkin_restores_counters_witness :
  let ready_pool := fst (Pool.ready a_pool) in
  let self2 := fst (fst (Pool.return_socket a_busy_pool a_fresh_sock an_env)) in
  Pool.requests self2 = Pool.requests ready_pool
  /\ Pool.active_sockets self2 = Pool.active_sockets ready_pool
  /\ Pool.operation_count self2 = Pool.operation_count ready_pool
  /\ Pool._pending self2 = Pool._pending ready_pool
  /\ Pool.waiters self2 = Pool.waiters ready_pool.
Proof.
  apply (checkout_then_checkin_restores_counters [] (repeat an_env 9) an_env
           (fst (Pool.ready a_pool)) a_busy_pool a_fresh_sock
           [publish_connection_created 1; publish_connection_ready 1;
            notify _max_connecting_cond; publish_connection_checked_out 1]).
  - vm_compute. reflexivity.
  - reflexivity.
Defined.

(** *** What a maintenance run adds to the counters *)

Lemma remove_stale_sockets_step_held (reference_generation : Z)
    (all_credentials : list Cred) (env : Env) (self self' : Pool.t)
    (pc pc' : Pool.ms_pc) (l : list Effect) :
  Pool.remove_stale_sockets_step reference_generation all_credentials env
    self pc = (self', pc', l) ->
  Pool.requests self' - Pool.requests self
  = ms_held_requests pc' - ms_held_requests pc
  /\ Pool._pending self' - Pool._pending self
     = ms_held__pending pc' - ms_held__pending pc
  /\ Pool.active_sockets self' = Pool.active_sockets self
  /\ Pool.operation_count self' = Pool.operation_count self
  /\ Pool.waiters self' = Pool.waiters self
  /\ (ms_held_requests pc = 1 -> ms_held_requests pc' = 0 ->
      In (notify size_cond) l)
  /\ (ms_held__pending pc = 1 -> ms_held__pending pc' = 0 ->
      In (notify _max_connecting_cond) l).
Proof.
  intros H.
  destruct pc; simpl in H.
  all: try (destruct (Pool.connect self all_credentials env)
              as [[s0 l0] r0] eqn:Ec;
            pose proof (connect_counters _ _ _ _ _ _ Ec)
              as (? & ? & ? & ? & _);
            apply connect_frame in Ec;
            destruct Ec as (_ & _ & _ & _ & ? & _)).
  all: repeat break_match; inv H; inv_pairs;
    simpl; repeat split; try lia; try discriminate; intros;
    try lia; try discriminate; try (left; reflexivity).
Qed.

Lemma ms_exec_net (reference_generation : Z) (all_credentials : list Cred)
    (pc pc' : Pool.ms_pc) (steps : list (Pool.t * Pool.t)) (l : list Effect) :
  ms_exec reference_generation all_credentials pc steps l pc' ->
  net Pool.requests steps = ms_held_requests pc' - ms_held_requests pc
  /\ net Pool._pending steps = ms_held__pending pc' - ms_held__pending pc
  /\ net Pool.active_sockets steps = 0
  /\ net Pool.operation_count steps = 0
  /\ net Pool.waiters steps = 0.
Proof.
  induction 1 as [pc | env self self' pc pc' l steps l' pc'' Hstep _ IH];
    simpl; [repeat split; lia|].
  destruct (remove_stale_sockets_step_held _ _ _ _ _ _ _ _ Hstep)
    as (Hr & Hp & Ha & Ho & Hw & _).
  destruct IH as (IHr & IHp & IHa & IHo & IHw).
  repeat split; lia.
Qed.

(** X7: a maintenance run that has ended, by returning or by raising, has
    over its own steps added nothing to requests, _pending,
    active_sockets, operation_count and waiters: every request and every
    pending creation it took it has given back. *)
Theorem maintenance_gives_back_what_it_took (reference_generation : Z)
    (all_credentials : list Cred) (steps : list (Pool.t * Pool.t))
    (l : list Effect) (pc : Pool.ms_pc) :
  ms_exec reference_generation all_credentials Pool.M1166 steps l pc ->
  pc = Pool.M_returned \/ (exists e, pc = Pool.M_raised e) ->
  net Pool.requests steps = 0
  /\ net Pool._pending steps = 0
  /\ net Pool.active_sockets steps = 0
  /\ net Pool.operation_count steps = 0
  /\ net Pool.waiters steps = 0.
Proof.
  intros Hexec Hend.
  destruct (ms_exec_net _ _ _ _ _ _ Hexec) as (Hr & Hp & Ha & Ho & Hw).
  destruct Hend as [-> | [e ->]]; simpl in *; repeat split; assumption.
Qed.

Lemma remove_stale_sockets_run_exec (reference_generation : Z)
    (all_credentials : list Cred) (envs : list Env) (self : Pool.t)
    (pc : Pool.ms_pc) :
  ms_exec reference_generation all_credentials pc
    (remove_stale_sockets_steps reference_generation all_credentials envs
       self pc)
    (snd (remove_stale_sockets_run reference_generation all_credentials envs
            self pc))
    (snd (fst (remove_stale_sockets_run reference_generation all_credentials
                 envs self pc))).
Proof.
  revert self pc.
  induction envs as [|env envs IH]; intros self pc; simpl.
  - constructor.
  - destruct (Pool.remove_stale_sockets_step reference_generation
                all_credentials env self pc) as [[self' pc'] l] eqn:Hstep.
    specialize (IH self' pc').
    destruct (remove_stale_sockets_run reference_generation all_credentials
                envs self' pc') as [[self'' pc''] l'] eqn:Hrun.
    simpl in *. econstructor; eassumption.
Qed.

(** On [a_warm_pool] a maintenance run dials one connection, puts it in the
    deque and returns. *)
Lemma a_maintenance_run :
  let '(self, pc, l) :=
    remove_stale_sockets_run 0 [] (repeat an_env 8) a_warm_pool Pool.M1166 in
  pc = Pool.M_returned
  /\ List.length (Pool.sockets self) = 1%nat
  /\ l = [publish_connection_created 1; publish_connection_ready 1;
          notify _max_connecting_cond; notify size_cond].
Proof. vm_compute. repeat split; reflexivity. Qed.

Lemma maintenance_gives_back_what_it_took_witness :
  let steps :=
    remove_stale_sockets_steps 0 [] (repeat an_env 8) a_warm_pool
      Pool.M1166 in
  net Pool.requests steps = 0
  /\ net Pool._pending steps = 0
  /\ net Pool.active_sockets steps = 0
  /\ net Pool.operation_count steps = 0
  /\ net Pool.waiters steps = 0.
Proof.
  pose proof (remove_stale_sockets_run_exec 0 [] (repeat an_env 8)
                a_warm_pool Pool.M1166) as Hexec.
  assert (Hpc : snd (fst (remove_stale_sockets_run 0 [] (repeat an_env 8)
                            a_warm_pool Pool.M1166)) = Pool.M_returned)
    by (vm_compute; reflexivity).
  rewrite Hpc in Hexec.
  exact (maintenance_gives_back_what_it_took 0 [] _ _ _ Hexec
           (or_introl eq_refl)).
Defined.

(** *** close and reset *)

(** X8: once close() has been called, a further close(), reset() or
    reset_without_pause() changes nothing in the pool, not even its
    generation, drains nothing and emits nothing. *)
Theorem nothing_resets_a_closed_pool (self : Pool.t) (env env' : Env)
    (close pause : bool) :
  let closed_pool := fst (fst (Pool.close self env)) in
  Pool._reset closed_pool close pause env' = (closed_pool, [], []).
Proof.
  cbv zeta. apply reset_closed. apply closed_state. apply close_is_closed.
Qed.

(** X9: reset(), reset_without_pause() and close() of a pool that is not
    closed raise the generation by exactly one, empty the deque and hand
    back every connection that was in it closed, adopt the current pid,
    and leave requests, _pending, waiters and the next connection id as
    they were; the state becomes CLOSED for close(), PAUSED for a pausing
    reset of a pool that has pause enabled, and otherwise stays;
    active_sockets and operation_count are set to zero when the pid has
    changed and are left alone when it has not. *)
Theorem reset_bumps_generation_and_drains (self : Pool.t) (close pause : bool)
    (env : Env) :
  Pool.closed self = false ->
  let '(self', drained, _) := Pool._reset self close pause env in
  Pool.generation self' = Pool.generation self + 1
  /\ Pool.sockets self' = []
  /\ map SocketInfo.id drained = map SocketInfo.id (Pool.sockets self)
  /\ Forall (fun sock_info => SocketInfo.closed sock_info = true) drained
  /\ Pool.pid self' = getpid env
  /\ Pool.requests self' = Pool.requests self
  /\ Pool._pending self' = Pool._pending self
  /\ Pool.waiters self' = Pool.waiters self
  /\ Pool.next_connection_id self' = Pool.next_connection_id self
  /\ Pool.state self'
     = (if close then CLOSED
        else if PoolOptions.pause_enabled (Pool.opts self) && pause
             then PAUSED else Pool.state self)
  /\ (Pool.pid self = getpid env ->
      Pool.active_sockets self' = Pool.active_sockets self
      /\ Pool.operation_count self' = Pool.operation_count self)
  /\ (Pool.pid self <> getpid env ->
      Pool.active_sockets self' = 0 /\ Pool.operation_count self' = 0).
Proof.
  intros Hopen.
  assert (Hdrain : forall sockets reason,
             map SocketInfo.id (fst (Pool.close_sockets sockets reason))
             = map SocketInfo.id sockets
             /\ Forall (fun sock_info => SocketInfo.closed sock_info = true)
                  (fst (Pool.close_sockets sockets reason))).
  { intros sockets reason.
    induction sockets as [|s rest [IHm IHc]]; simpl; [split; constructor|].
    destruct (SocketInfo.close_socket s (Some reason)) as [s' l] eqn:Es.
    destruct (Pool.close_sockets rest reason) as [rest' l'].
    simpl in *.
    assert (SocketInfo.id s' = SocketInfo.id s /\ SocketInfo.closed s' = true)
      as [Hid Hc].
    { unfold SocketInfo.close_socket, SocketInfo._close_socket in Es.
      destruct (SocketInfo.closed s) eqn:Ecl; [inv Es; auto|].
      destruct (SocketInfo.cancel_context s);
        simpl in Es; repeat break_match; inv Es; auto. }
    split; [rewrite Hid, IHm; reflexivity | constructor; assumption]. }
  unfold Pool._reset. rewrite Hopen.
  destruct (PoolOptions.pause_enabled (Pool.opts self)), pause, close;
    simpl;
    destruct (Pool.pid self =? getpid env) eqn:Hpid; bool_to_Z; simpl;
    match goal with
    | |- context [Pool.close_sockets ?s ?r] =>
        destruct (Hdrain s r) as [Hm Hc];
        destruct (Pool.close_sockets s r) as [d l]
    end;
    simpl in *; repeat split; auto; intros; congruence.
Qed.

Lemma reset_bumps_generation_and_drains_witness :
  let '(self', drained, _) := Pool._reset an_idle_pool false true an_env in
  Pool.generation self' = Pool.generation an_idle_pool + 1
  /\ Pool.sockets self' = []
  /\ map SocketInfo.id drained = map SocketInfo.id (Pool.sockets an_idle_pool)
  /\ Forall (fun sock_info => SocketInfo.closed sock_info = true) drained
  /\ Pool.pid self' = getpid an_env
  /\ Pool.requests self' = Pool.requests an_idle_pool
  /\ Pool._pending self' = Pool._pending an_idle_pool
  /\ Pool.waiters self' = Pool.waiters an_idle_pool
  /\ Pool.next_connection_id self' = Pool.next_connection_id an_idle_pool
  /\ Pool.state self'
     = (if false then CLOSED
        else if PoolOptions.pause_enabled (Pool.opts an_idle_pool) && true
             then PAUSED else Pool.state an_idle_pool)
  /\ (Pool.pid an_idle_pool = getpid an_env ->
      Pool.active_sockets self' = Pool.active_sockets an_idle_pool
      /\ Pool.operation_count self' = Pool.operation_count an_idle_pool)
  /\ (Pool.pid an_idle_pool <> getpid an_env ->
      Pool.active_sockets self' = 0 /\ Pool.operation_count self' = 0).
Proof.
  exact (reset_bumps_generation_and_drains an_idle_pool false true an_env
           eq_refl).
Defined.

Lemma reset_pauses (self : Pool.t) (env : Env) :
  Pool.closed self = false ->
  PoolOptions.pause_enabled (Pool.opts self) = true ->
  Pool.state (fst (fst (Pool.reset self env))) = PAUSED
  /\ Pool.sockets (fst (fst (Pool.reset self env))) = []
  /\ Pool.opts (fst (fst (Pool.reset self env))) = Pool.opts self
  /\ Pool.generation (fst (fst (Pool.reset self env)))
     = Pool.generation self + 1.
Proof.
  intros Hopen Hpause.
  unfold Pool.reset, Pool._reset. rewrite Hopen, Hpause. cbn [andb].
  cbv zeta.
  destruct (Pool.close_sockets _ _) as [d l0].
  cbn [fst snd].
  match goal with
  | |- context [if negb ?c then _ else _] => destruct c
  end; cbn; repeat split; reflexivity.
Qed.

Lemma reset_of_paused_empty_pool (self : Pool.t) (env : Env) :
  Pool.state self = PAUSED ->
  Pool.sockets self = [] ->
  PoolOptions.pause_enabled (Pool.opts self) = true ->
  snd (fst (Pool.reset self env)) = []
  /\ snd (Pool.reset self env)
     = [notify_all _max_connecting_cond; notify_all size_cond]
  /\ Pool.state (fst (fst (Pool.reset self env))) = PAUSED
  /\ Pool.generation (fst (fst (Pool.reset self env)))
     = Pool.generation self + 1.
Proof.
  intros Hs Hempty Hpause.
  destruct self; cbn in Hs, Hempty, Hpause; subst.
  unfold Pool.reset, Pool._reset, Pool.closed. cbn. rewrite Hpause. cbn.
  match goal with
  | |- context [negb (?a =? ?b)] => destruct (a =? b)
  end; cbn; repeat split; reflexivity.
Qed.

(** X10: of two reset() in a row on a pool that pauses, each raises the
    generation by one, and the second, finding the pool PAUSED and the
    deque empty, only wakes the waiters: it emits no PoolCleared and closes
    nothing. *)
Theorem second_reset_clears_nothing (self : Pool.t) (env env' : Env) :
  Pool.closed self = false ->
  PoolOptions.pause_enabled (Pool.opts self) = true ->
  let '(self1, _, _) := Pool.reset self env in
  let '(self2, drained, l) := Pool.reset self1 env' in
  Pool.generation self2 = Pool.generation self + 2
  /\ Pool.state self2 = PAUSED
  /\ drained = []
  /\ l = [notify_all _max_connecting_cond; notify_all size_cond].
Proof.
  intros Hopen Hpause.
  destruct (reset_pauses self env Hopen Hpause) as (Hs & Hempty & Ho & Hg).
  destruct (Pool.reset self env) as [[self1 d1] l1]. cbn [fst snd] in *.
  rewrite <- Ho in Hpause.
  destruct (reset_of_paused_empty_pool self1 env' Hs Hempty Hpause)
    as (Hd & Hl & Hs2 & Hg2).
  destruct (Pool.reset self1 env') as [[self2 d2] l2]. cbn [fst snd] in *.
  repeat split; try assumption. lia.
Qed.

Lemma second_reset_clears_nothing_witness :
  let '(self1, _, _) := Pool.reset an_idle_pool an_env in
  let '(self2, drained, l) := Pool.reset self1 a_forked_env in
  Pool.generation self2 = Pool.generation an_idle_pool + 2
  /\ Pool.state self2 = PAUSED
  /\ drained = []
  /\ l = [notify_all _max_connecting_cond; notify_all size_cond].
Proof.
  exact (second_reset_clears_nothing an_idle_pool an_env a_forked_env
           eq_refl eq_refl).
Defined.

(** * Further properties of a connection *)

(** *** close_socket *)

Lemma close_socket_leaves_closed (sock_info : SocketInfo.t)
    (reason : option ConnectionClosedReason.t) :
  SocketInfo.closed (fst (SocketInfo.close_socket sock_info reason)) = true.
Proof.
  unfold SocketInfo.close_socket, SocketInfo._close_socket.
  destruct (SocketInfo.closed sock_info) eqn:E; [exact E|].
  destruct (SocketInfo.cancel_context sock_info), reason; simpl;
    repeat break_match; reflexivity.
Qed.

Lemma close_socket_each_closed (sock_info : SocketInfo.t)
    (reasons : list (option ConnectionClosedReason.t)) :
  SocketInfo.closed sock_info = true ->
  close_socket_each sock_info reasons = (sock_info, []).
Proof.
  intros Hc. induction reasons as [|reason reasons IH]; simpl; [reflexivity|].
  rewrite (close_socket_closed sock_info reason Hc), IH. reflexivity.
Qed.

(** X11: however often close_socket is called on a connection, and with
    whatever reasons, only the first call on an open connection does
    anything: over all the calls the socket is closed exactly once and
    ConnectionClosed is published at most once, with the reason of that
    first call, when it has one and the connection publishes events; on a
    connection that was closed already nothing is done at all.  The
    connection comes out closed, its cancellation context, if it has
    one, cancelled, and is otherwise as it was. *)
Theorem close_socket_is_idempotent (sock_info : SocketInfo.t)
    (reason : option ConnectionClosedReason.t)
    (reasons : list (option ConnectionClosedReason.t)) :
  close_socket_each sock_info (reason :: reasons)
  = if SocketInfo.closed sock_info then (sock_info, [])
    else
      (SocketInfo.set_cancel_context (SocketInfo.set_closed sock_info true)
         match SocketInfo.cancel_context sock_info with
         | Some _ => Some true
         | None => None
         end,
       sock_close (SocketInfo.sock sock_info)
       :: match reason with
          | Some r =>
              if SocketInfo.enabled_for_cmap sock_info
              then [publish_connection_closed (SocketInfo.id sock_info) r]
              else []
          | None => []
          end).
Proof.
  destruct (SocketInfo.closed sock_info) eqn:Hc.
  - apply close_socket_each_closed. exact Hc.
  - cbn [close_socket_each].
    pose proof (close_socket_leaves_closed sock_info reason) as Hclosed.
    assert (Hfirst :
              SocketInfo.close_socket sock_info reason
              = (SocketInfo.set_cancel_context
                   (SocketInfo.set_closed sock_info true)
                   match SocketInfo.cancel_context sock_info with
                   | Some _ => Some true
                   | None => None
                   end,
                 sock_close (SocketInfo.sock sock_info)
                 :: match reason with
                    | Some r =>
                        if SocketInfo.enabled_for_cmap sock_info
                        then [publish_connection_closed
                                (SocketInfo.id sock_info) r]
                        else []
                    | None => []
                    end)).
    { unfold SocketInfo.close_socket, SocketInfo._close_socket.
      rewrite Hc.
      destruct sock_info as [sk i au cl lc iw mb cmap g rd [cc|]];
        destruct reason, cmap; reflexivity. }
    rewrite Hfirst in Hclosed |- *. cbn [fst] in Hclosed.
    rewrite (close_socket_each_closed _ reasons Hclosed).
    rewrite app_nil_r. reflexivity.
Qed.

Lemma close_socket_is_idempotent_witness :
  close_socket_each a_sock
    [Some ConnectionClosedReason.IDLE; Some ConnectionClosedReason.ERROR;
     None]
  = (SocketInfo.set_closed a_sock true,
     [sock_close 3;
      publish_connection_closed 1 ConnectionClosedReason.IDLE]).
Proof.
  exact (close_socket_is_idempotent a_sock
           (Some ConnectionClosedReason.IDLE)
           [Some ConnectionClosedReason.ERROR; None]).
Defined.

(** *** check_auth *)

Lemma mem_cred_cons (c d : Cred) (l : list Cred) :
  mem_cred c l = true -> mem_cred c (d :: l) = true.
Proof. unfold mem_cred. simpl. intros ->. apply orb_true_r. Qed.

Lemma authenticate_all_spec (all_credentials : list Cred)
    (authenticate : Cred -> option PyError) (self : SocketInfo.t) :
  let '(self', r) :=
    SocketInfo.authenticate_all self all_credentials authenticate in
  (forall c, mem_cred c (SocketInfo.authset self) = true ->
             mem_cred c (SocketInfo.authset self') = true)
  /\ (r = None ->
      forall c, In c all_credentials ->
                mem_cred c (SocketInfo.authset self') = true)
  /\ SocketInfo.ready self' = SocketInfo.ready self
  /\ SocketInfo.closed self' = SocketInfo.closed self
  /\ SocketInfo.id self' = SocketInfo.id self
  /\ SocketInfo.sock self' = SocketInfo.sock self
  /\ SocketInfo.generation self' = SocketInfo.generation self
  /\ SocketInfo.enabled_for_cmap self' = SocketInfo.enabled_for_cmap self.
Proof.
  revert self.
  induction all_credentials as [|c rest IH]; intros self; simpl.
  - repeat split; auto; try (intros _ ? []).
  - destruct (mem_cred c (SocketInfo.authset self)) eqn:Hin.
    + specialize (IH self).
      destruct (SocketInfo.authenticate_all self rest authenticate)
        as [self' r].
      destruct IH as (Hmono & Hall & Hrest).
      repeat split; try apply Hrest; auto.
      intros Hr x [<- | Hx]; auto.
    + destruct (authenticate c) as [error|].
      * repeat split; auto. discriminate.
      * specialize (IH (SocketInfo.set_authset self
                          (c :: SocketInfo.authset self))).
        destruct (SocketInfo.authenticate_all _ rest authenticate)
          as [self' r].
        destruct IH as (Hmono & Hall & Hrest). simpl in *.
        repeat split; try apply Hrest.
        -- intros x Hx. apply Hmono. apply mem_cred_cons. exact Hx.
        -- intros Hr x [<- | Hx]; auto.
           apply Hmono. unfold mem_cred. simpl.
           rewrite Nat.eqb_refl. reflexivity.
Qed.

Lemma authenticate_all_known (all_credentials : list Cred)
    (authenticate : Cred -> option PyError) (self : SocketInfo.t) :
  (forall c, In c all_credentials ->
             mem_cred c (SocketInfo.authset self) = true) ->
  SocketInfo.authenticate_all self all_credentials authenticate
  = (self, None).
Proof.
  induction all_credentials as [|c rest IH]; intros Hall; simpl;
    [reflexivity|].
  rewrite (Hall c (or_introl eq_refl)).
  apply IH. intros x Hx. apply Hall. right; exact Hx.
Qed.

(** X12: when check_auth returns, the connection is ready, every
    credential asked for is in its authset and none was lost; it has
    published ConnectionReady only if the connection was not ready before;
    and a further check_auth for the same credentials returns at once, with
    no call to the authenticator and no event. *)
Theorem check_auth_authenticates_once (self self' : SocketInfo.t)
    (all_credentials : list Cred) (authenticate : Cred -> option PyError)
    (l : list Effect) :
  SocketInfo.check_auth self all_credentials authenticate
  = (self', l, Ok tt) ->
  SocketInfo.ready self' = true
  /\ (forall c, In c all_credentials ->
                mem_cred c (SocketInfo.authset self') = true)
  /\ (forall c, mem_cred c (SocketInfo.authset self) = true ->
                mem_cred c (SocketInfo.authset self') = true)
  /\ l = (if SocketInfo.ready self then []
          else if SocketInfo.enabled_for_cmap self
               then [publish_connection_ready (SocketInfo.id self)]
               else [])
  /\ forall authenticate',
       SocketInfo.check_auth self' all_credentials authenticate'
       = (self', [], Ok tt).
Proof.
  unfold SocketInfo.check_auth. intros H.
  pose proof (authenticate_all_spec all_credentials authenticate self) as Hs.
  destruct (SocketInfo.authenticate_all self all_credentials authenticate)
    as [s r].
  destruct Hs as (Hmono & Hall & Hready & _ & Hid & _ & _ & Hcmap).
  destruct r as [error|]; [discriminate|].
  specialize (Hall eq_refl).
  assert (Hagain : forall s', SocketInfo.authset s' = SocketInfo.authset s ->
                     SocketInfo.ready s' = true ->
                     forall authenticate',
                       match SocketInfo.authenticate_all s' all_credentials
                               authenticate' with
                       | (self0, Some error) =>
                           (self0, [], Raise (Reraised error))
                       | (self0, None) =>
                           if SocketInfo.ready self0 then (self0, [], Ok tt)
                           else
                             let self1 := SocketInfo.set_ready self0 true in
                             if SocketInfo.enabled_for_cmap self1
                             then (self1,
                                   [publish_connection_ready
                                      (SocketInfo.id self1)], Ok tt)
                             else (self1, [], Ok tt)
                       end = (s', [], Ok tt)).
  { intros s' Ha Hr authenticate'.
    rewrite authenticate_all_known; [rewrite Hr; reflexivity|].
    intros c Hc. rewrite Ha. apply Hall. exact Hc. }
  rewrite <- Hready, <- Hcmap, <- Hid.
  destruct (SocketInfo.ready s) eqn:Er.
  - inv H. repeat split; auto.
  - cbv zeta in H. simpl in H.
    destruct (SocketInfo.enabled_for_cmap s) eqn:Ec; inv H; simpl;
      repeat split; auto; intros; apply Hagain; reflexivity.
Qed.

Lemma check_auth_authenticates_once_witness :
  SocketInfo.ready
    (SocketInfo.set_ready
       (SocketInfo.set_authset
          (SocketInfo.set_authset
             (SocketInfo.set_ready a_sock false) [5%nat]) [7%nat; 5%nat])
       true) = true.
Proof.
  exact (proj1 (check_auth_authenticates_once
                  (SocketInfo.set_authset (SocketInfo.set_ready a_sock false)
                     [5%nat])
                  _ [5%nat; 7%nat] (fun _ => None)
                  [publish_connection_ready 1] eq_refl)).
Defined.

(** *** Failures of the socket *)

Lemma raise_connection_failure_closes (self : SocketInfo.t) (error : PyError) :
  let '(self', l, e) := SocketInfo._raise_connection_failure self error in
  SocketInfo.closed self' = true
  /\ (self', l) = SocketInfo.close_socket self
                    (Some ConnectionClosedReason.ERROR)
  /\ e = match err_class error with
         | socket_timeout | _SSLError | OSError =>
             _raise_connection_failure error
         | OperationFailure | NotMasterError | OtherException
         | KeyboardInterrupt => Reraised error
         end.
Proof.
  unfold SocketInfo._raise_connection_failure.
  pose proof (close_socket_leaves_closed self
                (Some ConnectionClosedReason.ERROR)) as Hc.
  destruct (SocketInfo.close_socket self _) as [s l] eqn:E.
  simpl in Hc.
  destruct (err_class error); repeat split; assumption.
Qed.

(** X13: when the socket raises under send_message (the message being
    within max_bson_size) or under receive_message, the connection comes
    out closed, closed with reason ERROR if it was open, and the exception
    raised is NetworkTimeout or AutoReconnect for a socket.timeout, an
    SSLError or an OSError, and the original exception otherwise. *)
Theorem socket_failure_closes_connection (self : SocketInfo.t)
    (message : list Byte.byte) (max_doc_size : Z) (error : PyError) :
  (forall m, SocketInfo.max_bson_size self = Some m -> max_doc_size <= m) ->
  let closing :=
    SocketInfo.close_socket self (Some ConnectionClosedReason.ERROR) in
  let raised :=
    match err_class error with
    | socket_timeout | _SSLError | OSError => _raise_connection_failure error
    | OperationFailure | NotMasterError | OtherException
    | KeyboardInterrupt => Reraised error
    end in
  SocketInfo.send_message self message max_doc_size (Some error)
  = (fst closing,
     sock_sendall (SocketInfo.sock self) message :: snd closing,
     Raise raised)
  /\ SocketInfo.receive_message self (inr error)
     = (fst closing, snd closing, Raise raised)
  /\ SocketInfo.closed (fst closing) = true.
Proof.
  intros Hsize. cbv zeta.
  pose proof (raise_connection_failure_closes self error) as H.
  unfold SocketInfo.send_message, SocketInfo.receive_message.
  assert (Hfit : match SocketInfo.max_bson_size self with
                 | Some m => if max_doc_size >? m then Some m else None
                 | None => None
                 end = None).
  { destruct (SocketInfo.max_bson_size self) as [m|]; [|reflexivity].
    specialize (Hsize m eq_refl).
    destruct (max_doc_size >? m) eqn:E; [bool_to_Z; lia | reflexivity]. }
  rewrite Hfit.
  destruct (SocketInfo._raise_connection_failure self error) as [[s l] e].
  destruct H as (Hc & Heq & He).
  rewrite <- Heq. simpl. subst e. repeat split. exact Hc.
Qed.

Lemma socket_failure_closes_connection_witness :
  SocketInfo.closed
    (fst (SocketInfo.close_socket a_sock (Some ConnectionClosedReason.ERROR)))
  = true.
Proof.
  refine (proj2 (proj2 (socket_failure_closes_connection a_sock [] 10
                          {| err_class := OSError;
                             err_str := "Broken pipe" |} _))).
  intros m Hm. inversion Hm. lia.
Defined.

(** *** The translation of socket errors *)

Lemma prefix_of_spec (p s : string) :
  prefix_of p s = true <-> exists rest, s = (p ++ rest)%string.
Proof.
  revert s. induction p as [|a p IH]; intros s; simpl.
  - split; [intros _; exists s; reflexivity | reflexivity].
  - destruct s as [|b s].
    + split; [discriminate | intros [rest H]; discriminate].
    + rewrite andb_true_iff, IH. split.
      * intros [Hab [rest ->]]. apply Ascii.eqb_eq in Hab. subst.
        exists rest. reflexivity.
      * intros [rest H]. inversion H; subst. split.
        -- apply Ascii.eqb_refl.
        -- exists rest. reflexivity.
Qed.

Lemma contains_spec (needle hay : string) :
  contains needle hay = true <-> substring needle hay.
Proof.
  unfold substring.
  induction hay as [|b hay IH]; simpl.
  - rewrite orb_false_r, prefix_of_spec. split.
    + intros [rest H]. exists EmptyString, rest. exact H.
    + intros (before & after & H).
      destruct before; simpl in H; [exists after; exact H | discriminate].
  - rewrite orb_true_iff, prefix_of_spec, IH. split.
    + intros [[rest H] | (before & after & H)].
      * exists EmptyString, rest. exact H.
      * exists (String b before), after. simpl. rewrite H. reflexivity.
    + intros (before & after & H).
      destruct before as [|c before]; simpl in H.
      * left. exists after. exact H.
      * right. inversion H; subst. exists before, after. reflexivity.
Qed.

(** X14: _raise_connection_failure raises NetworkTimeout exactly for a
    socket.timeout and for an SSLError whose text has 'timed out' somewhere
    in it, and AutoReconnect for every other error; the exception carries
    the text of the error. *)
Theorem network_timeout_iff_timed_out (error : PyError) :
  let timed_out :=
    err_class error = socket_timeout
    \/ (err_class error = _SSLError
        /\ substring "timed out" (err_str error)) in
  (timed_out ->
   _raise_connection_failure error = NetworkTimeout (err_str error))
  /\ (~ timed_out ->
      _raise_connection_failure error = AutoReconnect (err_str error)).
Proof.
  cbv zeta. unfold _raise_connection_failure.
  pose proof (contains_spec "timed out" (err_str error)) as Hc.
  destruct (err_class error) eqn:Ec;
    destruct (contains "timed out" (err_str error)) eqn:Et;
    split; intros H;
    try reflexivity;
    try (destruct H as [H | [H _]]; discriminate);
    try (exfalso; apply H; auto; fail).
  - exfalso. apply H. right. split; [reflexivity | apply Hc; reflexivity].
  - destruct H as [H | [_ H]]; [discriminate|].
    apply Hc in H. discriminate.
Qed.

Lemma network_timeout_iff_timed_out_witness :
  _raise_connection_failure
    {| err_class := _SSLError; err_str := "The read operation timed out" |}
  = NetworkTimeout "The read operation timed out".
Proof.
  apply (proj1 (network_timeout_iff_timed_out
                  {| err_class := _SSLError;
                     err_str := "The read operation timed out" |})).
  right. split; [reflexivity|].
  exists "The read operation "%string, ""%string. reflexivity.
Defined.

(** *** legacy_write *)

(** X15: legacy_write raises a NotMasterError before anything is sent
    exactly when the write is unacknowledged and the connection is not
    known to be writable, and it leaves the connection as it was; any
    other NotMasterError of legacy_write, such as one of the reply check
    of an acknowledged write, comes after the message has been handed to
    the socket.  An unacknowledged write that is sent reads no reply. *)
Theorem legacy_write_not_master (self : SocketInfo.t) (msg : list Byte.byte)
    (max_doc_size : Z) (with_last_error : bool) (sendall : option PyError)
    (received : Z + PyError) (checked : Z -> Z + PyError) :
  let unwritable :=
    with_last_error = false /\ SocketInfo.is_writable self <> Some true in
  let written :=
    SocketInfo.legacy_write self msg max_doc_size with_last_error sendall
      received checked in
  (unwritable ->
   written = (self, [],
              Raise (Reraised {| err_class := NotMasterError;
                                 err_str := "not master" |})))
  /\ ((exists error,
         snd written = Raise (Reraised error)
         /\ err_class error = NotMasterError) ->
      ~ In (sock_sendall (SocketInfo.sock self) msg) (snd (fst written)) ->
      unwritable)
  /\ (with_last_error = false ->
      forall received' checked',
        written
        = SocketInfo.legacy_write self msg max_doc_size with_last_error
            sendall received' checked').
Proof.
  cbv zeta. unfold SocketInfo.legacy_write, SocketInfo._raise_if_not_writable.
  split; [|split].
  - intros [-> Hw].
    destruct (SocketInfo.is_writable self) as [[|]|]; simpl;
      congruence.
  - intros (error & Hr & Hclass) Hsent.
    destruct (negb with_last_error
              && negb match SocketInfo.is_writable self with
                      | Some b => b
                      | None => false
                      end) eqn:Hguard.
    + apply andb_prop in Hguard. destruct Hguard as [Hu Hw].
      split.
      * destruct with_last_error; [discriminate | reflexivity].
      * intros Heq. rewrite Heq in Hw. discriminate.
    + exfalso.
      unfold SocketInfo.send_message, SocketInfo._raise_connection_failure
        in Hr, Hsent.
      destruct (match SocketInfo.max_bson_size self with
                | Some m => if max_doc_size >? m then Some m else None
                | None => None
                end) as [m|].
      * simpl in Hr. discriminate.
      * destruct sendall as [e|].
        -- destruct (SocketInfo.close_socket self _) as [s0 l0].
           destruct (is_OSError_or_SSLError (err_class e));
             apply Hsent; left; reflexivity.
        -- apply Hsent.
           destruct with_last_error; [|left; reflexivity].
           destruct (SocketInfo.receive_message self received)
             as [[s' l'] [reply|e]];
             [destruct (checked reply)|]; left; reflexivity.
  - intros -> received' checked'. simpl.
    destruct (negb match SocketInfo.is_writable self with
                   | Some b => b
                   | None => false
                   end); [reflexivity|].
    destruct (SocketInfo.send_message self msg max_doc_size sendall)
      as [[s l] [u|e]]; reflexivity.
Qed.

Lemma legacy_write_not_master_witness :
  SocketInfo.legacy_write (SocketInfo.set_is_writable a_sock (Some false))
    [] 10 false None (inl 0) (fun reply => inl reply)
  = (SocketInfo.set_is_writable a_sock (Some false), [],
     Raise (Reraised {| err_class := NotMasterError;
                        err_str := "not master" |})).
Proof.
  apply (proj1 (legacy_write_not_master
                  (SocketInfo.set_is_writable a_sock (Some false))
                  [] 10 false None (inl 0) (fun reply => inl reply))).
  split; [reflexivity | discriminate].
Defined.

(** * Further properties of the pool's connections *)

(** *** _perished *)

(** X16: _perished answers True exactly for the connections it closes: an
    open connection it finds perished comes out closed, and one it lets
    pass comes out untouched, is of the pool's generation and has been idle
    for no longer than max_idle_time_seconds. *)
Theorem perished_iff_closed (self : Pool.t) (sock_info : SocketInfo.t)
    (env : Env) :
  SocketInfo.closed sock_info = false ->
  let '(perished, sock_info', l) := Pool._perished self sock_info env in
  (perished = true ->
   SocketInfo.closed sock_info' = true
   /\ In (sock_close (SocketInfo.sock sock_info)) l)
  /\ (perished = false ->
      sock_info' = sock_info
      /\ ~ In (sock_close (SocketInfo.sock sock_info)) l
      /\ SocketInfo.generation sock_info = Pool.generation self
      /\ forall max_idle,
           PoolOptions.max_idle_time_seconds (Pool.opts self) = Some max_idle ->
           SocketInfo.idle_time_seconds sock_info (monotonic env) <= max_idle).
Proof.
  intros Hopen.
  assert (Hclose : forall reason,
             SocketInfo.closed
               (fst (SocketInfo.close_socket sock_info (Some reason))) = true
             /\ In (sock_close (SocketInfo.sock sock_info))
                  (snd (SocketInfo.close_socket sock_info (Some reason)))).
  { intros reason.
    destruct (close_socket_closes sock_info reason Hopen)
      as (l0 & Hl & _ & _ & Hc).
    split; [exact Hc | rewrite Hl; left; reflexivity]. }
  unfold Pool._perished.
  destruct (PoolOptions.max_idle_time_seconds (Pool.opts self)) as [m|].
  - destruct (SocketInfo.idle_time_seconds sock_info (monotonic env) >? m)
      eqn:Eidle.
    + destruct (Hclose ConnectionClosedReason.IDLE) as [Hc Hin].
      destruct (SocketInfo.close_socket sock_info _) as [s l].
      split; [intros _; split; assumption | discriminate].
    + destruct (match Pool._check_interval_seconds self with
                | Some interval =>
                    (0 =? interval)
                    || (SocketInfo.idle_time_seconds sock_info (monotonic env)
                        >? interval)
                | None => false
                end && socket_closed env).
      * destruct (Hclose ConnectionClosedReason.ERROR) as [Hc Hin].
        destruct (SocketInfo.close_socket sock_info _) as [s l].
        split; [intros _; split; [assumption | right; assumption]
               | discriminate].
      * destruct (SocketInfo.generation sock_info =? Pool.generation self)
          eqn:Eg; simpl.
        -- split; [discriminate|]. intros _. bool_to_Z.
           repeat split; try assumption.
           ++ destruct (match Pool._check_interval_seconds self with
                        | Some _ => _ | None => _ end);
                simpl; intros H; repeat (destruct H as [H|H]; try discriminate);
                contradiction.
           ++ intros max_idle Hm. inv Hm. lia.
        -- destruct (Hclose ConnectionClosedReason.STALE) as [Hc Hin].
           destruct (SocketInfo.close_socket sock_info _) as [s l].
           split; [intros _; split; [assumption|] | discriminate].
           apply in_or_app. right. assumption.
  - destruct (match Pool._check_interval_seconds self with
              | Some interval =>
                  (0 =? interval)
                  || (SocketInfo.idle_time_seconds sock_info (monotonic env)
                      >? interval)
              | None => false
              end && socket_closed env).
    + destruct (Hclose ConnectionClosedReason.ERROR) as [Hc Hin].
      destruct (SocketInfo.close_socket sock_info _) as [s l].
      split; [intros _; split; [assumption | right; assumption]
             | discriminate].
    + destruct (SocketInfo.generation sock_info =? Pool.generation self)
        eqn:Eg; simpl.
      * split; [discriminate|]. intros _. bool_to_Z.
        repeat split; try assumption.
        -- destruct (match Pool._check_interval_seconds self with
                     | Some _ => _ | None => _ end);
             simpl; intros H; repeat (destruct H as [H|H]; try discriminate);
             contradiction.
        -- intros max_idle Hm. discriminate.
      * destruct (Hclose ConnectionClosedReason.STALE) as [Hc Hin].
        destruct (SocketInfo.close_socket sock_info _) as [s l].
        split; [intros _; split; [assumption|] | discriminate].
        apply in_or_app. right. assumption.
Qed.

Lemma perished_iff_closed_witness :
  let '(perished, sock_info', l) :=
    Pool._perished a_reset_pool a_sock an_env in
  (perished = true ->
   SocketInfo.closed sock_info' = true
   /\ In (sock_close (SocketInfo.sock a_sock)) l)
  /\ (perished = false ->
      sock_info' = a_sock
      /\ ~ In (sock_close (SocketInfo.sock a_sock)) l
      /\ SocketInfo.generation a_sock = Pool.generation a_reset_pool
      /\ forall max_idle,
           PoolOptions.max_idle_time_seconds (Pool.opts a_reset_pool)
           = Some max_idle ->
           SocketInfo.idle_time_seconds a_sock (monotonic an_env) <= max_idle).
Proof.
  exact (perished_iff_closed a_reset_pool a_sock an_env eq_refl).
Defined.

(** *** The idle prune of remove_stale_sockets *)

Lemma prune_idle_spec (from_right : list SocketInfo.t) (now max_idle : Time) :
  let '(kept, l) := Pool.prune_idle from_right now max_idle in
  exists pruned,
    from_right = pruned ++ kept
    /\ Forall (fun sock_info =>
                 SocketInfo.idle_time_seconds sock_info now > max_idle) pruned
    /\ l = snd (Pool.close_sockets pruned ConnectionClosedReason.IDLE)
    /\ (kept = []
        \/ exists sock_info rest,
             kept = sock_info :: rest
             /\ SocketInfo.idle_time_seconds sock_info now <= max_idle).
Proof.
  induction from_right as [|s rest IH]; simpl.
  - exists []. repeat split; auto.
  - destruct (SocketInfo.idle_time_seconds s now >? max_idle) eqn:E.
    + destruct (SocketInfo.close_socket s (Some ConnectionClosedReason.IDLE))
        as [s' l] eqn:Es.
      destruct (Pool.prune_idle rest now max_idle) as [kept l'].
      destruct IH as (pruned & Hsplit & Hidle & Hl & Hkept).
      exists (s :: pruned). simpl. rewrite Es.
      destruct (Pool.close_sockets pruned ConnectionClosedReason.IDLE)
        as [d l''].
      simpl in *. subst. bool_to_Z.
      repeat split; auto. constructor; [lia | assumption].
    + exists []. bool_to_Z. simpl. repeat split; auto.
      right. exists s, rest. split; [reflexivity | lia].
Qed.

(** X17: the first step of a maintenance run does nothing in a pool that
    is not READY; in a READY pool with a maximum idle time it cuts off the
    right end of the deque exactly the connections that have been idle for
    longer, closing each with reason IDLE: what it keeps is a left part of
    the deque whose rightmost connection, if any, is not idle for too long. *)
Theorem maintenance_prunes_the_idle_tail (reference_generation : Z)
    (all_credentials : list Cred) (env : Env) (self : Pool.t) :
  let '(self', pc, l) :=
    Pool.remove_stale_sockets_step reference_generation all_credentials env
      self Pool.M1166 in
  (Pool.state self <> READY ->
   self' = self /\ pc = Pool.M_returned /\ l = [])
  /\ (Pool.state self = READY ->
      forall max_idle,
        PoolOptions.max_idle_time_seconds (Pool.opts self) = Some max_idle ->
        pc = Pool.M1177
        /\ exists pruned,
            Pool.sockets self = Pool.sockets self' ++ pruned
            /\ Forall (fun sock_info =>
                         SocketInfo.idle_time_seconds sock_info
                           (monotonic env) > max_idle) pruned
            /\ closes_each pruned ConnectionClosedReason.IDLE l
            /\ rightmost_fresh (Pool.sockets self') (monotonic env) max_idle).
Proof.
  simpl.
  destruct (Pool.state self) eqn:Es; simpl;
    try (split; [intros _; repeat split | discriminate]).
  destruct (PoolOptions.max_idle_time_seconds (Pool.opts self)) as [m|];
    [|split; [congruence | discriminate]].
  pose proof (prune_idle_spec (rev (Pool.sockets self)) (monotonic env) m)
    as H.
  destruct (Pool.prune_idle (rev (Pool.sockets self)) (monotonic env) m)
    as [kept l].
  split; [congruence|].
  intros _ max_idle Hm. inv Hm. split; [reflexivity|].
  destruct H as (pruned & Hsplit & Hidle & Hl & Hkept).
  exists (rev pruned). simpl.
  split.
  { rewrite <- rev_app_distr, <- Hsplit, rev_involutive. reflexivity. }
  split.
  { apply Forall_rev. exact Hidle. }
  split.
  { pose proof (close_sockets_closes_each pruned ConnectionClosedReason.IDLE)
      as [Hall Heach].
    rewrite <- Hl in Hall, Heach.
    split; [exact Hall|].
    intros s Hin. apply Heach. apply in_rev. exact Hin. }
  destruct Hkept as [-> | (s & rest & -> & Hfresh)].
  - left. reflexivity.
  - right. exists (rev rest), s. split; [reflexivity | exact Hfresh].
Qed.

(** *** __del__ *)

(** X18: __del__ closes the socket of every open connection of the deque
    and publishes no event at all. *)
Theorem del_closes_without_events (self : Pool.t) :
  let '(sockets, l) := Pool.__del__ self in
  Forall (fun e => exists sock, e = sock_close sock) l
  /\ Forall (fun sock_info => SocketInfo.closed sock_info = true) sockets
  /\ forall sock_info, In sock_info (Pool.sockets self) ->
       SocketInfo.closed sock_info = false ->
       In (sock_close (SocketInfo.sock sock_info)) l.
Proof.
  unfold Pool.__del__.
  induction (Pool.sockets self) as [|s rest IH]; simpl.
  - repeat split; auto; try (intros ? []).
  - destruct (Pool.__del__sockets rest) as [rest' l'].
    destruct IH as (Hall & Hclosed & Heach).
    pose proof (close_socket_leaves_closed s None) as Hc.
    assert (Hlog : (SocketInfo.closed s = true
                    /\ snd (SocketInfo.close_socket s None) = [])
                   \/ (SocketInfo.closed s = false
                       /\ snd (SocketInfo.close_socket s None)
                          = [sock_close (SocketInfo.sock s)])).
    { unfold SocketInfo.close_socket, SocketInfo._close_socket.
      destruct (SocketInfo.closed s); [left; split; reflexivity|].
      right. split; [reflexivity|].
      destruct s as [sk i au cl lc iw mb cmap g rd [cc|]]; reflexivity. }
    destruct (SocketInfo.close_socket s None) as [s' l]. simpl in *.
    split; [|split].
    + apply Forall_app. split; [|exact Hall].
      destruct Hlog as [[_ ->] | [_ ->]]; [constructor|].
      constructor; [eexists; reflexivity | constructor].
    + constructor; assumption.
    + intros x [<- | Hin] Hopen; apply in_or_app.
      * left. destruct Hlog as [[Hcl _] | [_ ->]]; [congruence|].
        left; reflexivity.
      * right. exact (Heach x Hin Hopen).
Qed.

Lemma maintenance_prunes_the_idle_tail_witness :
  Pool.remove_stale_sockets_step 0 [] an_env a_stale_tail_pool Pool.M1166
  = (Pool.set_sockets a_stale_tail_pool
       [SocketInfo.mk 4 2 [] false 4500 (Some true) (Some 16777216) true 0
          true None],
     Pool.M1177,
     [sock_close 3; publish_connection_closed 1 ConnectionClosedReason.IDLE])
  /\ exists pruned,
       Pool.sockets a_stale_tail_pool
       = [SocketInfo.mk 4 2 [] false 4500 (Some true) (Some 16777216) true 0
            true None] ++ pruned
       /\ Forall (fun sock_info =>
                    SocketInfo.idle_time_seconds sock_info (monotonic an_env)
                    > 1000) pruned.
Proof.
  split; [reflexivity|].
  destruct (proj2 (maintenance_prunes_the_idle_tail 0 [] an_env
                     a_stale_tail_pool) eq_refl 1000 eq_refl)
    as (_ & pruned & Hsplit & Hidle & _).
  exists pruned. split; assumption.
Defined.

Lemma del_closes_without_events_witness :
  In (sock_close (SocketInfo.sock a_fresh_sock))
    (snd (Pool.__del__ an_idle_pool)).
Proof.
  refine (proj2 (proj2 (del_closes_without_events an_idle_pool))
            (SocketInfo.set_is_writable
               (SocketInfo.set_last_checkin_time a_fresh_sock 5000)
               (Some true)) _ eq_refl).
  left. reflexivity.
Defined.

(** *** connect *)

(** X19: a connection that connect returns carries the id the pool had
    reserved for the next connection, which the pool has moved on by one,
    and the pool's generation; it is open and ready, every credential
    asked for is in its authset, and what connect has published is
    ConnectionCreated followed by ConnectionReady, both with that id. *)
Theorem connect_returns_a_ready_connection (self self' : Pool.t)
    (all_credentials : list Cred) (env : Env) (l : list Effect)
    (sock_info : SocketInfo.t) :
  Pool.connect self all_credentials env = (self', l, Ok sock_info) ->
  SocketInfo.id sock_info = Pool.next_connection_id self
  /\ Pool.next_connection_id self' = Pool.next_connection_id self + 1
  /\ SocketInfo.generation sock_info = Pool.generation self
  /\ SocketInfo.closed sock_info = false
  /\ SocketInfo.ready sock_info = true
  /\ (forall c, In c all_credentials ->
                mem_cred c (SocketInfo.authset sock_info) = true)
  /\ _configured_socket env = inl (SocketInfo.sock sock_info)
  /\ l = Pool.publish self
           (publish_connection_created (Pool.next_connection_id self))
         ++ Pool.publish self
              (publish_connection_ready (Pool.next_connection_id self)).
Proof.
  intros H.
  pose proof (fun s => authenticate_all_spec all_credentials
                         (authenticate env) s) as Hspec.
  unfold Pool.connect, Pool.ismaster, SocketInfo.check_auth,
    SocketInfo._raise_connection_failure, Pool.new_SocketInfo in H.
  repeat break_match; inv H; inv_pairs; try discriminate;
    match goal with
    | E : SocketInfo.authenticate_all ?x _ _ = _ |- _ =>
        pose proof (Hspec x) as Hs; rewrite E in Hs; simpl in Hs;
        destruct Hs as (_ & Hall & Hready & Hclosed & Hid & Hsock & Hgen
                        & Hcmap)
    end;
    match goal with
    | E : SocketInfo.ready _ = true |- _ =>
        rewrite Hready in E; discriminate
    | _ => idtac
    end;
    simpl in *; unfold Pool.publish; simpl;
    repeat split; auto; try congruence;
    try (rewrite Hcmap in *; simpl in *;
         match goal with
         | E : Pool.enabled_for_cmap self = _ |- _ => rewrite E
         end; simpl; congruence).
Qed.

Lemma connect_returns_a_ready_connection_witness :
  SocketInfo.id a_fresh_sock
  = Pool.next_connection_id (fst (Pool.ready a_pool)).
Proof.
  refine (proj1 (connect_returns_a_ready_connection (fst (Pool.ready a_pool))
                   (Pool.set_is_writable
                      (Pool.set_next_connection_id (fst (Pool.ready a_pool)) 2)
                      (Some true))
                   [] an_env
                   [publish_connection_created 1; publish_connection_ready 1]
                   a_fresh_sock _)).
  vm_compute. reflexivity.
Defined.





(** * Properties of the dialer *)

Lemma try_addresses_handles (net : Dial.Net) (addresses : list Dial.AddrInfo)
    (fd : Z) (err : option PyError) :
  let '(l, r) := Dial.try_addresses net addresses fd err in
  (forall k family, In (Dial.opened k family) l ->
     r = Dial.Socket k
     \/ In (Dial.closed k) l
     \/ exists res e,
          In res addresses
          /\ leaves_socket_open net (Dial.attempt net res) e
          /\ r = Dial.RaiseError e
          /\ exists l', l = l' ++ [Dial.opened k family])
  /\ (forall k, r = Dial.Socket k ->
        fd <= k
        /\ ~ In (Dial.closed k) l
        /\ exists family address,
            In (Dial.opened k family) l /\ In (Dial.connected k address) l).
Proof.
  revert fd err.
  induction addresses as [|res rest IH]; intros fd err; simpl.
  - destruct err; split; try (intros ? ? []); intros ? H; discriminate.
  - destruct (Dial.attempt net res) as [e|e|e|] eqn:Ea.
    + split; [intros ? ? [] | intros ? H; discriminate].
    + split; [|intros ? H; discriminate].
      intros k family [H | []]. inv H. right; right.
      exists res, e. split; [left; reflexivity|].
      split; [left; exact Ea|]. split; [reflexivity|].
      exists []. reflexivity.
    + destruct (Dial.is_socket_error net (err_class e)) eqn:Es.
      * specialize (IH (fd + 1) (Some e)).
        destruct (Dial.try_addresses net rest (fd + 1) (Some e)) as [l r].
        destruct IH as [Hopened Hsocket]. split.
        -- intros k family [H | [H | H]]; try discriminate.
           ++ inv H. right; left. right; left; reflexivity.
           ++ destruct (Hopened k family H)
                as [-> | [Hc | (res' & e' & Hin & Hl & Hr & l' & Hl')]].
              ** left; reflexivity.
              ** right; left. right; right; exact Hc.
              ** right; right. exists res', e'.
                 split; [right; exact Hin|]. split; [exact Hl|].
                 split; [exact Hr|].
                 exists (Dial.opened fd (Dial.af res) :: Dial.closed fd :: l').
                 rewrite Hl'. reflexivity.
        -- intros k ->.
           destruct (Hsocket k eq_refl) as (Hle & Hno & f & a & Ho & Hc).
           split; [lia|]. split.
           ++ intros [H | [H | H]]; try discriminate; [inv H; lia | auto].
           ++ exists f, a. split; right; right; assumption.
      * split; [|intros ? H; discriminate].
        intros k family [H | []]. inv H. right; right.
        exists res, e. split; [left; reflexivity|].
        split; [right; split; [exact Ea | exact Es]|].
        split; [reflexivity|]. exists []. reflexivity.
    + split.
      * intros k family [H | [H | []]]; [|discriminate].
        inv H. left; reflexivity.
      * intros k H. inv H. split; [lia|]. split.
        -- intros [H | [H | []]]; discriminate.
        -- exists (Dial.af res), (Dial.sa res).
           split; [left | right; left]; reflexivity.
Qed.

Lemma create_connection_handles (net : Dial.Net) (host : string) (fd : Z) :
  let '(l, r) := Dial._create_connection net host fd in
  (forall k family, In (Dial.opened k family) l ->
     r = Dial.Socket k
     \/ In (Dial.closed k) l
     \/ exists a e,
          attempted net host a
          /\ leaves_socket_open net a e
          /\ r = Dial.RaiseError e
          /\ exists l', l = l' ++ [Dial.opened k family])
  /\ (forall k, r = Dial.Socket k ->
        ~ In (Dial.closed k) l
        /\ exists family address,
            In (Dial.opened k family) l /\ In (Dial.connected k address) l).
Proof.
  unfold Dial._create_connection.
  destruct (Dial.ends_with ".sock" host).
  - destruct (negb (Dial.has_AF_UNIX net)).
    + split; [intros ? ? [] | intros ? H; discriminate].
    + destruct (Dial.unix_attempt net host) as [e|e|e|] eqn:Ea.
      * split; [intros ? ? [] | intros ? H; discriminate].
      * split; [|intros ? H; discriminate].
        intros k family [H | []]. inv H. right; right.
        exists (Dial.unix_attempt net host), e.
        split; [left; reflexivity|]. split; [left; exact Ea|].
        split; [reflexivity|]. exists []. reflexivity.
      * destruct (Dial.is_socket_error net (err_class e)) eqn:Es.
        -- split; [|intros ? H; discriminate].
           intros k family [H | [H | []]]; [|discriminate].
           inv H. right; left. right; left; reflexivity.
        -- split; [|intros ? H; discriminate].
           intros k family [H | []]. inv H. right; right.
           exists (Dial.unix_attempt net host), e.
           split; [left; reflexivity|].
           split; [right; split; [exact Ea | exact Es]|].
           split; [reflexivity|]. exists []. reflexivity.
      * split.
        -- intros k family [H | [H | []]]; [|discriminate].
           inv H. left; reflexivity.
        -- intros k H. inv H. split.
           ++ intros [H | [H | []]]; discriminate.
           ++ exists Dial.AF_UNIX, host.
              split; [left | right; left]; reflexivity.
  - destruct (Dial.getaddrinfo net host _) as [addresses|e] eqn:Eg.
    + pose proof (try_addresses_handles net addresses fd None) as H.
      destruct (Dial.try_addresses net addresses fd None) as [l r].
      destruct H as [Ho Hs]. split.
      * intros k family Hin.
        destruct (Ho k family Hin)
          as [Hr | [Hc | (res & e & Hres & Hl & Hr & Hlast)]];
          [left; exact Hr | right; left; exact Hc |].
        right; right. exists (Dial.attempt net res), e.
        split; [|split; [exact Hl | split; [exact Hr | exact Hlast]]].
        right. eexists _, addresses, res.
        split; [exact Eg|]. split; [exact Hres | reflexivity].
      * intros k Hk. destruct (Hs k Hk) as (_ & Hno & Hex).
        split; assumption.
    + split; [intros ? ? [] | intros ? H; discriminate].
Qed.



(** What the code does when a line of the try is not a socket.error: a
    ValueError of settimeout (line 946) ends the loop at the first address
    with its socket open. *)
Lemma create_connection_value_error :
  Dial._create_connection a_strict_net "db.example.com" 10
  = ([Dial.opened 10 Dial.AF_UNSPEC],
     Dial.RaiseError {| err_class := OtherException;
                        err_str := "Timeout value out of range" |}).
Proof. reflexivity. Qed.

Lemma try_addresses_first (net : Dial.Net) (failed : list Dial.AddrInfo)
    (res : Dial.AddrInfo) (rest : list Dial.AddrInfo) :
  Forall (socket_error_at net) failed ->
  forall fd err,
    snd (Dial.try_addresses net (failed ++ res :: rest) fd err)
    = match Dial.attempt net res with
      | Dial.connects => Dial.Socket (fd + Z.of_nat (List.length failed))
      | Dial.socket_raises e | Dial.set_non_inheritable_raises e =>
          Dial.RaiseError e
      | Dial.connect_raises e =>
          if Dial.is_socket_error net (err_class e)
          then snd (Dial.try_addresses net rest
                      (fd + Z.of_nat (List.length failed) + 1) (Some e))
          else Dial.RaiseError e
      end.
Proof.
  intros Hfailed.
  induction Hfailed as [|a failed (e & He & Hs) _ IH]; intros fd err.
  - simpl. rewrite Z.add_0_r.
    destruct (Dial.attempt net res) as [e|e|e|]; try reflexivity.
    destruct (Dial.is_socket_error net (err_class e)); [|reflexivity].
    destruct (Dial.try_addresses net rest (fd + 1) (Some e)); reflexivity.
  - simpl app. cbn [Dial.try_addresses]. rewrite He, Hs.
    specialize (IH (fd + 1) (Some e)).
    destruct (Dial.try_addresses net (failed ++ res :: rest) (fd + 1) (Some e))
      as [l r].
    simpl in *. rewrite IH.
    replace (fd + 1 + Z.of_nat (List.length failed))
      with (fd + Z.pos (Pos.of_succ_nat (List.length failed))) by lia.
    reflexivity.
Qed.

(** X22: for a host that is not a UNIX socket path, _create_connection
    goes through the addresses that getaddrinfo gives in their order, as
    long as the connects fail with a socket.error.  When the connect to
    an address succeeds it returns that socket, the one it opened after
    one socket for each failed address.  When socket.socket or line 943
    raises, or the connect raises something that is no socket.error, it
    raises that exception at once and tries no further address.  When
    the connect to every address fails with a socket.error it raises the
    error of the last one, and when there is no address it raises
    'getaddrinfo failed'.  For 'localhost', and without IPv6, it asks
    getaddrinfo for IPv4 only. *)
Theorem create_connection_takes_first_address (net : Dial.Net)
    (host : string) (fd : Z) (addresses : list Dial.AddrInfo) :
  Dial.ends_with ".sock" host = false ->
  Dial.getaddrinfo net host
    (if String.eqb host "localhost" then Dial.AF_INET
     else if Dial.has_ipv6 net then Dial.AF_UNSPEC else Dial.AF_INET)
  = inl addresses ->
  (forall failed res rest,
     addresses = failed ++ res :: rest ->
     Forall (socket_error_at net) failed ->
     Dial.attempt net res = Dial.connects ->
     snd (Dial._create_connection net host fd)
     = Dial.Socket (fd + Z.of_nat (List.length failed)))
  /\ (forall failed res rest e,
        addresses = failed ++ res :: rest ->
        Forall (socket_error_at net) failed ->
        Dial.attempt net res = Dial.socket_raises e
        \/ leaves_socket_open net (Dial.attempt net res) e ->
        snd (Dial._create_connection net host fd) = Dial.RaiseError e)
  /\ (forall failed res e,
        addresses = failed ++ [res] ->
        Forall (socket_error_at net) failed ->
        Dial.attempt net res = Dial.connect_raises e ->
        snd (Dial._create_connection net host fd) = Dial.RaiseError e)
  /\ (addresses = [] ->
      Dial._create_connection net host fd
      = ([], Dial.RaiseError {| err_class := OSError;
                                err_str := "getaddrinfo failed" |})).
Proof.
  intros Hsock Haddr.
  assert (Hcreate : Dial._create_connection net host fd
                    = Dial.try_addresses net addresses fd None).
  { unfold Dial._create_connection. rewrite Hsock.
    destruct (String.eqb host "localhost"), (Dial.has_ipv6 net);
      simpl; rewrite Haddr; reflexivity. }
  rewrite Hcreate. split; [|split; [|split]].
  - intros failed res rest -> Hfailed Hres.
    rewrite (try_addresses_first net failed res rest Hfailed), Hres.
    reflexivity.
  - intros failed res rest e -> Hfailed Hres.
    rewrite (try_addresses_first net failed res rest Hfailed).
    destruct Hres as [-> | [-> | [-> ->]]]; reflexivity.
  - intros failed res e -> Hfailed Hres.
    rewrite (try_addresses_first net failed res [] Hfailed), Hres.
    destruct (Dial.is_socket_error net (err_class e)); reflexivity.
  - intros ->. reflexivity.
Qed.

Lemma create_connection_takes_first_address_witness :
  snd (Dial._create_connection a_net "db.example.com" 10)
  = Dial.Socket (10 + Z.of_nat 1).
Proof.
  refine (proj1 (create_connection_takes_first_address a_net
                   "db.example.com" 10 _ eq_refl eq_refl)
            [ {| Dial.af := Dial.AF_UNSPEC; Dial.sa := "::1" |} ]
            {| Dial.af := Dial.AF_INET; Dial.sa := "127.0.0.1" |} []
            eq_refl _ eq_refl).
  repeat constructor.
  exists {| err_class := OSError; err_str := "Connection refused" |}.
  split; reflexivity.
Defined.

Lemma try_addresses_only_dials (net : Dial.Net)
    (addresses : list Dial.AddrInfo) (fd : Z) (err : option PyError)
    (k : Z) (server_hostname : option string) :
  ~ In (Dial.wrapped k server_hostname)
       (fst (Dial.try_addresses net addresses fd err)).
Proof.
  revert fd err.
  induction addresses as [|res rest IH]; intros fd err; simpl.
  - destruct err; intros [].
  - destruct (Dial.attempt net res) as [e|e|e|].
    + intros [].
    + intros [H | []]; discriminate.
    + destruct (Dial.is_socket_error net (err_class e)).
      * specialize (IH (fd + 1) (Some e)).
        destruct (Dial.try_addresses net rest (fd + 1) (Some e)) as [l r].
        intros [H | [H | H]]; try discriminate. exact (IH H).
      * intros [H | []]; discriminate.
    + intros [H | [H | []]]; discriminate.
Qed.

Lemma create_connection_only_dials (net : Dial.Net) (host : string) (fd : Z)
    (k : Z) (server_hostname : option string) :
  ~ In (Dial.wrapped k server_hostname)
       (fst (Dial._create_connection net host fd)).
Proof.
  unfold Dial._create_connection.
  destruct (Dial.ends_with ".sock" host).
  - destruct (negb (Dial.has_AF_UNIX net)); [intros []|].
    destruct (Dial.unix_attempt net host) as [e|e|e|];
      try destruct (Dial.is_socket_error net (err_class e)); simpl;
      intros H; repeat (destruct H as [H | H]; try discriminate); exact H.
  - destruct (Dial.getaddrinfo net host _) as [addresses|e]; [|intros []].
    apply try_addresses_only_dials.
Qed.

(** Closes the two halves of the statement on [_configured_socket] once
    its branch is fixed: the log is [l0], what [_create_connection] did,
    followed by the effects of that branch. *)
Ltac in_tail Hin :=
  simpl in Hin;
  repeat (destruct Hin as [Hin | Hin]; try discriminate);
  try contradiction.

Ltac dialed :=
  match goal with
  | Hk : forall k family, In (Dial.opened k family) ?l0 -> _,
    Hnc : ~ In (Dial.closed ?sock) ?l0,
    Hno_wrap : forall k h, ~ In (Dial.wrapped k h) ?l0,
    Hlast : forall l1 x, In x (?l0 ++ l1) -> _ |- _ =>
      split;
      [ intros k family Hin;
        try (apply Hlast in Hin; destruct Hin as [Hin | Hin];
             [|in_tail Hin]);
        destruct (Hk k family Hin) as [-> | Hc];
        [ first [ left; reflexivity
                | right; left; apply in_or_app; right; simpl; tauto
                | right; right; eexists; split; [reflexivity|];
                  first [ right; left; split; [reflexivity | assumption]
                        | right; right; left; reflexivity
                        | right; right; right; reflexivity ] ]
        | right; left; first [exact Hc | apply in_or_app; left; exact Hc] ]
      | intros k Hr;
        first
          [ discriminate
          | inv Hr;
            split; [|split; [|split]];
            [ intros Hin; apply Hlast in Hin; destruct Hin as [Hin | Hin];
              [exact (Hnc Hin) | in_tail Hin]
            | apply in_or_app; right; simpl; tauto
            | intros context0 Hctx;
              first [ discriminate
                    | apply in_or_app; right; simpl; tauto ]
            | intros Hctx h Hin;
              first [ discriminate
                    | apply Hlast in Hin; destruct Hin as [Hin | Hin];
                      [exact (Hno_wrap _ _ Hin) | in_tail Hin] ] ] ] ]
  end.

(** X23: _configured_socket returns its socket only with the socket
    timeout set on it and, when there is a TLS context, wrapped, with the
    host as server name exactly when SNI is available and the host is not
    an IP literal (or IP literals are safe); without a TLS context nothing
    is wrapped.  A socket it has opened and does not return it has closed,
    unless the exception it raises is one that no handler of the dialer
    catches: one after which _create_connection leaves its socket open,
    one of wrap_socket that is neither a CertificateError nor an IOError,
    OSError or SSLError, one of match_hostname that is no
    CertificateError, or one of settimeout (line 1011). *)
Theorem configured_socket_closes_on_failure (net : Dial.Net) (host : string)
    (options : Dial.Options.t) (fd : Z) :
  let '(l, r) := Dial._configured_socket net host options fd in
  (forall k family, In (Dial.opened k family) l ->
     r = Dial.Socket k
     \/ In (Dial.closed k) l
     \/ exists e,
          r = Dial.RaiseError e
          /\ ((exists a, attempted net host a /\ leaves_socket_open net a e)
              \/ (Dial.wrap_socket net = Dial.raises e
                  /\ is_OSError_or_SSLError (err_class e) = false)
              \/ Dial.match_hostname net = Dial.raises e
              \/ Dial.settimeout net (Dial.Options.socket_timeout options)
                 = Some e))
  /\ (forall k, r = Dial.Socket k ->
        ~ In (Dial.closed k) l
        /\ In (Dial.timeout_set k (Dial.Options.socket_timeout options)) l
        /\ (forall context,
              Dial.Options.ssl_context options = Some context ->
              In (Dial.wrapped k
                    (if Dial.is_ip_address net host
                     then (if Dial._HAVE_SNI net && Dial._IPADDR_SAFE net
                           then Some host else None)
                     else (if Dial._HAVE_SNI net then Some host else None)))
                 l)
        /\ (Dial.Options.ssl_context options = None ->
            forall server_hostname,
              ~ In (Dial.wrapped k server_hostname) l)).
Proof.
  unfold Dial._configured_socket, Dial.set_timeout_and_return.
  pose proof (create_connection_handles net host fd) as H0.
  pose proof (fun k h => create_connection_only_dials net host fd k h)
    as Hno_wrap.
  destruct (Dial._create_connection net host fd) as [l0 r0].
  destruct H0 as [Hopened Hsocket]. simpl in Hno_wrap.
  assert (Hsni :
            (if Dial._HAVE_SNI net
                && (negb (Dial.is_ip_address net host) || Dial._IPADDR_SAFE net)
             then Some host else None)
            = (if Dial.is_ip_address net host
               then (if Dial._HAVE_SNI net && Dial._IPADDR_SAFE net
                     then Some host else None)
               else (if Dial._HAVE_SNI net then Some host else None))).
  { destruct (Dial._HAVE_SNI net), (Dial.is_ip_address net host),
      (Dial._IPADDR_SAFE net); reflexivity. }
  rewrite Hsni. clear Hsni.
  set (sni := if Dial.is_ip_address net host then _ else _).
  destruct r0 as [sock|e|e|].
  2-4: split; [|intros ? H; discriminate];
    intros k family Hin;
    destruct (Hopened k family Hin)
      as [H | [H | (a & e' & Ha & Hl & Hr & _)]];
    [left; exact H | right; left; exact H |];
    right; right; exists e'; split; [exact Hr|];
    left; exists a; split; assumption.
  destruct (Hsocket sock eq_refl) as (Hnc & _).
  assert (Hk : forall k family,
             In (Dial.opened k family) l0 ->
             k = sock \/ In (Dial.closed k) l0).
  { intros k family Hin.
    destruct (Hopened k family Hin) as [H | [H | (a & e & _ & _ & H & _)]];
      [inv H; left; reflexivity | right; exact H | discriminate]. }
  clear Hopened Hsocket.
  assert (Hlast : forall (l1 : list Dial.DialEffect) (x : Dial.DialEffect),
             In x (l0 ++ l1) -> In x l0 \/ In x l1)
    by (intros l1 x Hin; apply in_app_or; exact Hin).
  destruct (Dial.Options.ssl_context options) as [context|].
  - destruct (Dial.wrap_socket net) as [| |error] eqn:Hw.
    + destruct (Dial.verify_mode context && negb (Dial.check_hostname context)
                && Dial.Options.ssl_match_hostname options).
      * destruct (Dial.match_hostname net) as [| |error] eqn:Hm.
        -- destruct (Dial.settimeout net _) as [e|] eqn:Hst;
             rewrite <- ?app_assoc; cbn [app]; dialed.
        -- rewrite <- ?app_assoc; cbn [app]; dialed.
        -- dialed.
      * destruct (Dial.settimeout net _) as [e|] eqn:Hst;
          rewrite <- ?app_assoc; cbn [app]; dialed.
    + dialed.
    + destruct (is_OSError_or_SSLError (err_class error)) eqn:Hclass; dialed.
  - destruct (Dial.settimeout net _) as [e|] eqn:Hst; dialed.
Qed.

Lemma configured_socket_closes_on_failure_witness :
  Dial._configured_socket a_net "db.example.com" tls_options 10
  = ([Dial.opened 10 Dial.AF_UNSPEC; Dial.closed 10;
      Dial.opened 11 Dial.AF_INET; Dial.connected 11 "127.0.0.1";
      Dial.closed 11],
     Dial.RaiseExn
       (NetworkTimeout "SSL handshake failed: handshake timed out"))
  /\ In (Dial.closed 11)
        (fst (Dial._configured_socket a_net "db.example.com" tls_options 10)).
Proof.
  split; [reflexivity|].
  pose proof (configured_socket_closes_on_failure a_net "db.example.com"
                tls_options 10) as H.
  destruct (Dial._configured_socket a_net "db.example.com" tls_options 10)
    as [l r] eqn:E.
  vm_compute in E. inv E.
  destruct (proj1 H 11 Dial.AF_INET ltac:(simpl; auto))
    as [H1 | [H1 | (e & H1 & _)]]; try discriminate.
  exact H1.
Defined.

(** What the code does when settimeout of line 1011 refuses the socket
    timeout: the ValueError passes with the connected socket open. *)
Lemma configured_socket_value_error :
  Dial._configured_socket a_refusing_net "db.example.com" plain_options 10
  = ([Dial.opened 10 Dial.AF_UNSPEC; Dial.connected 10 "::1"],
     Dial.RaiseError {| err_class := OtherException;
                        err_str := "Timeout value out of range" |}).
Proof. reflexivity. Qed.
